(** * ProofScore SDK: scoring, metrics cache, proof generation, submission

    A shallow embedding of the credit-scoring pipeline of the ProofScore
    repository (src/lib/sdk/ScoringEngine.ts, DataAggregator.ts,
    ProofGenerator.ts, BlockchainAdapter.ts, CreditScoreSDK.ts, the
    constants module and src/types/sdk.ts), followed by the properties of
    the specification that are proved or refuted on it.

    Conventions of the embedding:
    - a JavaScript [number] that may hold a fraction (the wallet metrics,
      the bonuses, the replies of the metric endpoints) is a rational [Q],
      with exact arithmetic; equality of such numbers is [==];
    - a [number] that is an integer by construction (a clock value, a
      32-bit hash, the result of [Math.round] or [Math.floor], a block
      height) is a [Z], injected into [Q] where it meets a fraction;
    - a function that may [throw] returns an [outcome];
    - [Date.now()], random values and network replies are explicit inputs. *)

From Stdlib Require Import ZArith List String Ascii Bool Lia.
From Stdlib Require Import QArith Qround Qminmax Lqa.
From Stdlib.Strings Require Import Byte.
From Stdlib Require Import DecimalString.
Import ListNotations.
Open Scope string_scope.
Open Scope Z_scope.

(* ------------------------------------------------------------------ *)
(** ** Exceptions and outcomes (src/types/sdk.ts, "ERROR TYPES") *)
(* ------------------------------------------------------------------ *)

(** A thrown JavaScript error object: constructor name, message and, for
    the SDK's own classes, the machine-readable [code]. *)
Record exn : Type := mkExn {
  exn_name : string;
  exn_message : string;
  exn_code : option string
}.

Definition Error (message : string) : exn :=
  mkExn "Error" message None.
Definition TypeError (message : string) : exn :=
  mkExn "TypeError" message None.
Definition SDKError (message code : string) : exn :=
  mkExn "SDKError" message (Some code).
Definition RPCError (message : string) : exn :=
  mkExn "RPCError" message (Some "RPC_ERROR").
Definition ProofGenerationError (message : string) : exn :=
  mkExn "ProofGenerationError" message (Some "PROOF_GENERATION_ERROR").
Definition TransactionError (message : string) : exn :=
  mkExn "TransactionError" message (Some "TRANSACTION_ERROR").

Inductive outcome (A : Type) : Type :=
| Returned (a : A)
| Thrown (e : exn).
Arguments Returned {A} a.
Arguments Thrown {A} e.

Definition bind {A B} (c : outcome A) (k : A -> outcome B) : outcome B :=
  match c with
  | Returned a => k a
  | Thrown e => Thrown e
  end.

(** [try c catch h] *)
Definition try_catch {A} (c : outcome A) (h : exn -> outcome A) : outcome A :=
  match c with
  | Returned a => Returned a
  | Thrown e => h e
  end.

Notation "x <- c ;; k" := (bind c (fun x => k))
  (at level 61, c at next level, right associativity).
Notation "c ;;; k" := (bind c (fun _ => k))
  (at level 61, right associativity).

(* ------------------------------------------------------------------ *)
(** ** Constants (src/lib/constants) *)
(* ------------------------------------------------------------------ *)

Record bonus_config : Type := {
  threshold : Q;
  pointsPer : Q;
  maxPoints : Q
}.

Module SCORING_CONFIG.
Definition BASE_SCORE : Q := 300.
Definition MAX_SCORE : Q := 850.
Module BONUSES.
Definition TRANSACTION_COUNT : bonus_config :=
  {| threshold := 10; pointsPer := 5; maxPoints := 100 |}.
(** [pointsPerMonth] in the source *)
Definition WALLET_AGE : bonus_config :=
  {| threshold := 3; pointsPer := 10; maxPoints := 100 |}.
Definition DEFI_SCORE : bonus_config :=
  {| threshold := 20; pointsPer := 3; maxPoints := 100 |}.
Definition REPAYMENT_RATE : bonus_config :=
  {| threshold := 75; pointsPer := 2; maxPoints := 150 |}.
End BONUSES.
End SCORING_CONFIG.

Module RISK_LEVELS.
Definition LOW_minScore : Q := 750.
Definition MEDIUM_minScore : Q := 500.
Definition HIGH_minScore : Q := 0.
End RISK_LEVELS.

Module CACHE_CONFIG.
Definition METRICS_TTL : Z := 1000 * 60 * 60.
Definition MAX_CACHE_SIZE : nat := 100.
End CACHE_CONFIG.

Module TX_POLLING.
Definition INTERVAL : Z := 500.
Definition MAX_ATTEMPTS : Z := 20.
End TX_POLLING.

(* ------------------------------------------------------------------ *)
(** ** Data model (src/types/sdk.ts) *)
(* ------------------------------------------------------------------ *)

Module WalletMetrics.
Record t : Type := mk {
  address : string;
  transactionCount : Q;
  walletAgeMonths : Q;
  defiScore : Q;
  repaymentRate : Q;
  tokenBalance : Q;
  lastTransactionDate : Q
}.
End WalletMetrics.

Inductive RiskLevel : Type := low | medium | high.

(** [finalScore] is always the result of [Math.round], an integer. *)
Module CreditAssessment.
Record t : Type := mk {
  address : string;
  metrics : WalletMetrics.t;
  baseScore : Q;
  bonusPoints : Q;
  finalScore : Z;
  riskLevel : RiskLevel;
  timestamp : Z
}.
End CreditAssessment.

(** [Math.round]: the nearest integer, a tie going up. *)
Definition Math_round (x : Q) : Z := Qfloor (x + 0.5).

(** [Math.floor] *)
Definition Math_floor (x : Q) : Z := Qfloor x.

(** [x < y], [x > y] and [x >= y] on numbers. *)
Definition Qltb (x y : Q) : bool := negb (Qle_bool y x).
Definition Qgtb (x y : Q) : bool := Qltb y x.
Definition Qgeb (x y : Q) : bool := Qle_bool y x.

(** [x || d] on numbers: [0] is the falsy number. *)
Definition js_or_num (x d : Q) : Q := if Qeq_bool x 0 then d else x.

(** [!s] for a string: only the empty string is falsy. *)
Definition falsy_string (s : string) : bool :=
  match s with EmptyString => true | _ => false end.

(** [s.startsWith(p)] *)
Definition startsWith (s p : string) : bool := String.prefix p s.

(* ------------------------------------------------------------------ *)
(** ** ScoringEngine (src/lib/sdk/ScoringEngine.ts) *)
(* ------------------------------------------------------------------ *)

Module ScoringEngine.
Import SCORING_CONFIG.

Definition calculateTransactionBonus (count : Q) : Q :=
  let config := BONUSES.TRANSACTION_COUNT in
  if Qltb count (threshold config) then 0
  else
    let bonus := ((count - threshold config) * pointsPer config)%Q in
    Qmin bonus (maxPoints config).

Definition calculateAgeBonus (months : Q) : Q :=
  let config := BONUSES.WALLET_AGE in
  if Qltb months (threshold config) then 0
  else
    let bonus := (months * pointsPer config)%Q in
    Qmin bonus (maxPoints config).

Definition calculateDeFiBonus (score : Q) : Q :=
  let config := BONUSES.DEFI_SCORE in
  if Qltb score (threshold config) then 0
  else
    let bonus := ((score - threshold config) * pointsPer config)%Q in
    Qmin bonus (maxPoints config).

Definition calculateRepaymentBonus (rate : Q) : Q :=
  let config := BONUSES.REPAYMENT_RATE in
  if Qltb rate (threshold config) then 0
  else
    let bonus := ((rate - threshold config) * pointsPer config)%Q in
    Qmin bonus (maxPoints config).

Definition getRiskLevel (score : Q) : RiskLevel :=
  if Qgeb score RISK_LEVELS.LOW_minScore then low
  else if Qgeb score RISK_LEVELS.MEDIUM_minScore then medium
  else high.

(** [now] is the value of [Date.now()] at the call. *)
Definition calculateScore (now : Z) (metrics : WalletMetrics.t)
  : CreditAssessment.t :=
  let baseScore := BASE_SCORE in
  let txBonus :=
    calculateTransactionBonus (WalletMetrics.transactionCount metrics) in
  let ageBonus :=
    calculateAgeBonus (WalletMetrics.walletAgeMonths metrics) in
  let defiBonus := calculateDeFiBonus (WalletMetrics.defiScore metrics) in
  let repaymentBonus :=
    calculateRepaymentBonus (WalletMetrics.repaymentRate metrics) in
  let totalBonus := (txBonus + ageBonus + defiBonus + repaymentBonus)%Q in
  let finalScore := Qmin MAX_SCORE (baseScore + totalBonus) in
  let riskLevel := getRiskLevel finalScore in
  {| CreditAssessment.address := WalletMetrics.address metrics;
     CreditAssessment.metrics := metrics;
     CreditAssessment.baseScore := baseScore;
     CreditAssessment.bonusPoints := totalBonus;
     CreditAssessment.finalScore := Math_round finalScore;
     CreditAssessment.riskLevel := riskLevel;
     CreditAssessment.timestamp := now |}.

Definition validateMetrics (metrics : WalletMetrics.t) : outcome unit :=
  if falsy_string (WalletMetrics.address metrics)
     || negb (startsWith (WalletMetrics.address metrics) "aleo1")
  then Thrown (Error "Invalid Aleo address format")
  else if Qltb (WalletMetrics.transactionCount metrics) 0
  then Thrown (Error "Transaction count cannot be negative")
  else if Qltb (WalletMetrics.walletAgeMonths metrics) 0
  then Thrown (Error "Wallet age cannot be negative")
  else if Qltb (WalletMetrics.defiScore metrics) 0
          || Qgtb (WalletMetrics.defiScore metrics) 100
  then Thrown (Error "DeFi score must be between 0 and 100")
  else if Qltb (WalletMetrics.repaymentRate metrics) 0
          || Qgtb (WalletMetrics.repaymentRate metrics) 100
  then Thrown (Error "Repayment rate must be between 0 and 100")
  else if Qltb (WalletMetrics.tokenBalance metrics) 0
  then Thrown (Error "Token balance cannot be negative")
  else Returned tt.


End ScoringEngine.

(** The ranges the data model declares for the numeric fields. *)
Definition metrics_in_range (m : WalletMetrics.t) : Prop :=
  (0 <= WalletMetrics.transactionCount m /\
   0 <= WalletMetrics.walletAgeMonths m /\
   0 <= WalletMetrics.defiScore m <= 100 /\
   0 <= WalletMetrics.repaymentRate m <= 100 /\
   0 <= WalletMetrics.tokenBalance m)%Q.

(* ------------------------------------------------------------------ *)
(** ** JavaScript number helpers on integers *)
(* ------------------------------------------------------------------ *)

(** [ToInt32]: the signed 32-bit value the bitwise operators work on. *)
Definition to_int32 (z : Z) : Z := (z + 2 ^ 31) mod 2 ^ 32 - 2 ^ 31.

(** [x << n] *)
Definition js_shl (x n : Z) : Z := to_int32 (Z.shiftl (to_int32 x) n).

(** [x & y] *)
Definition js_and (x y : Z) : Z := to_int32 (Z.land (to_int32 x) (to_int32 y)).

(** [x % y], the remainder with the sign of the dividend. *)
Definition js_mod (x y : Z) : Z := Z.rem x y.

(** [x || d] on numbers: [0] is the falsy integer. *)
Definition js_or (x d : Z) : Z := if x =? 0 then d else x.


(** [s.charCodeAt(i)] for the characters of [s] in order (one code unit
    per character: addresses are ASCII). *)
Fixpoint charCodes (s : string) : list Z :=
  match s with
  | EmptyString => []
  | String ch rest => Z.of_N (N_of_ascii ch) :: charCodes rest
  end.

(* ------------------------------------------------------------------ *)
(** ** The LRU cache used by DataAggregator *)
(* ------------------------------------------------------------------ *)

Module LRUCache.
(** Modelled from the spec: the cache class comes from the [lru-cache]
    package, which is not among the sources.  Section 4.2: "a bounded
    cache keyed by address (capacity N entries, time-to-live T); on hit,
    returns the cached value and refreshes its recency".  The constructor
    call in DataAggregator passes [max], [ttl] and [updateAgeOnGet: true].
    Entries are kept most recently used first; an entry older than [ttl]
    is dropped when it is looked up; inserting a new key into a full
    cache evicts the least recently used entry. *)
Record entry (V : Type) : Type := mkEntry {
  key : string;
  value : V;
  start : Z
}.
Arguments mkEntry {V}.
Arguments key {V}.
Arguments value {V}.
Arguments start {V}.

Definition t (V : Type) : Type := list (entry V).

Section Ops.
Context {V : Type}.
Variable max : nat.
Variable ttl : Z.

Definition lookup (k : string) (c : t V) : option (entry V) :=
  find (fun e => String.eqb (key e) k) c.

Definition remove (k : string) (c : t V) : t V :=
  filter (fun e => negb (String.eqb (key e) k)) c.

Definition is_stale (now : Z) (e : entry V) : bool :=
  now - start e >? ttl.

(** Modelled from the spec: [cache.get(k)] at time [now]. A hit returns
    the value, restarts its age and makes it the most recently used entry;
    an entry older than [ttl] is dropped and counts as a miss. *)
Definition get (now : Z) (k : string) (c : t V) : option V * t V :=
  match lookup k c with
  | None => (None, c)
  | Some e =>
      if is_stale now e then (None, remove k c)
      else (Some (value e), mkEntry k (value e) now :: remove k c)
  end.

(** Modelled from the spec: [cache.set(k, v)] at time [now]. The entry
    becomes the most recently used one; when [k] is new and the cache holds
    [max] entries, the least recently used entry is evicted first. *)
Definition set (now : Z) (k : string) (v : V) (c : t V) : t V :=
  let others := remove k c in
  let kept :=
    if (max <=? List.length others)%nat then removelast others else others in
  mkEntry k v now :: kept.

Definition delete (k : string) (c : t V) : t V := remove k c.

Definition clear (c : t V) : t V := [].

Definition size (c : t V) : nat := List.length c.
End Ops.
End LRUCache.

(* ------------------------------------------------------------------ *)
(** ** DataAggregator (src/lib/sdk/DataAggregator.ts) *)
(* ------------------------------------------------------------------ *)

(** What the outside world answers during one [fetchWalletMetrics] call:
    the clock, and the reply of each of the five RPC requests ([None]
    when the request fails, i.e. [ky] rejects). *)
Record world : Type := mkWorld {
  now : Z;
  transactions_reply : option Q;   (* { count } *)
  info_reply : option Q;           (* { firstSeen } *)
  defi_reply : option Q;           (* { score } *)
  lending_reply : option Q;        (* { repaymentRate } *)
  balance_reply : option Q         (* { balance } *)
}.

Module DataAggregator.
Definition cache : Type := LRUCache.t WalletMetrics.t.

Definition cache_get :=
  @LRUCache.get WalletMetrics.t CACHE_CONFIG.METRICS_TTL.
Definition cache_set :=
  @LRUCache.set WalletMetrics.t CACHE_CONFIG.MAX_CACHE_SIZE.

Definition hashAddress (str : string) : Z :=
  let step (hash char : Z) :=
    let hash1 := js_shl hash 5 - hash + char in
    js_and hash1 hash1 in
  Z.abs (fold_left step (charCodes str) 0).

(** The mock values are integers: [hash] is one, so [hash % n] and the
    sums are, and [Math.floor] leaves them as they are. *)
Definition getMockTransactionCount (address : string) : Q :=
  let hash := hashAddress address in
  inject_Z (Math_floor (inject_Z (js_mod hash 100))).

Definition getMockWalletAge (address : string) : Q :=
  let hash := hashAddress address in
  inject_Z (Math_floor (inject_Z (js_mod hash 36 + 1))).

Definition getMockDeFiScore (address : string) : Q :=
  let hash := hashAddress address in
  inject_Z (Math_floor (inject_Z (js_mod hash 101))).

Definition getMockRepaymentRate (address : string) : Q :=
  let hash := hashAddress address in
  inject_Z (Math_floor (inject_Z (js_mod hash 50 + 50))).

Definition getMockBalance (address : string) : Q :=
  let hash := hashAddress address in
  inject_Z (Math_floor (inject_Z (js_mod hash 100000 + 1000))).

Definition getMockMetrics (w : world) (address : string) : WalletMetrics.t :=
  let hash := hashAddress address in
  {| WalletMetrics.address := address;
     WalletMetrics.transactionCount := getMockTransactionCount address;
     WalletMetrics.walletAgeMonths := getMockWalletAge address;
     WalletMetrics.defiScore := getMockDeFiScore address;
     WalletMetrics.repaymentRate := getMockRepaymentRate address;
     WalletMetrics.tokenBalance := getMockBalance address;
     WalletMetrics.lastTransactionDate :=
       inject_Z (now w - js_mod hash (1000 * 60 * 60 * 24 * 30)) |}.

Definition queryTransactionCount (w : world) (address : string) : Q :=
  match transactions_reply w with
  | Some count => js_or_num count 0
  | None => getMockTransactionCount address
  end.

Definition queryWalletAgeMonths (w : world) (address : string) : Q :=
  match info_reply w with
  | Some firstSeen =>
      if Qeq_bool firstSeen 0 then 0
      else
        let ageMs := (inject_Z (now w) - firstSeen)%Q in
        let ageMonths :=
          inject_Z
            (Math_floor (ageMs / inject_Z (1000 * 60 * 60 * 24 * 30))) in
        Qmax 0 ageMonths
  | None => getMockWalletAge address
  end.

Definition queryDeFiScore (w : world) (address : string) : Q :=
  match defi_reply w with
  | Some score => Qmin 100 (Qmax 0 (js_or_num score 0))
  | None => getMockDeFiScore address
  end.

Definition queryRepaymentRate (w : world) (address : string) : Q :=
  match lending_reply w with
  | Some rate => Qmin 100 (Qmax 0 (js_or_num rate 0))
  | None => getMockRepaymentRate address
  end.

Definition queryTokenBalance (w : world) (address : string) : Q :=
  match balance_reply w with
  | Some balance => Qmax 0 (js_or_num balance 0)
  | None => getMockBalance address
  end.

Section Fetch.
(** [FEATURES.ENABLE_MOCK_DATA], i.e. [NODE_ENV === 'development']. *)
Variable ENABLE_MOCK_DATA : bool.

(** The result of the call together with the cache it leaves. *)
Definition fetchWalletMetrics (w : world) (address : string) (c : cache)
  : outcome WalletMetrics.t * cache :=
  if falsy_string address || negb (startsWith address "aleo1")
  then (Thrown (RPCError "Invalid Aleo address format"), c)
  else
    match cache_get (now w) address c with
    | (Some cached, c1) => (Returned cached, c1)
    | (None, c1) =>
        if ENABLE_MOCK_DATA then (Returned (getMockMetrics w address), c1)
        else
          let txCount := queryTransactionCount w address in
          let walletAge := queryWalletAgeMonths w address in
          let defiScore := queryDeFiScore w address in
          let repaymentRate := queryRepaymentRate w address in
          let balance := queryTokenBalance w address in
          let metrics :=
            {| WalletMetrics.address := address;
               WalletMetrics.transactionCount := txCount;
               WalletMetrics.walletAgeMonths := walletAge;
               WalletMetrics.defiScore := defiScore;
               WalletMetrics.repaymentRate := repaymentRate;
               WalletMetrics.tokenBalance := balance;
               WalletMetrics.lastTransactionDate := inject_Z (now w) |} in
          (Returned metrics, cache_set (now w) address metrics c1)
    end.

(** A run of further [fetchWalletMetrics] calls, each with its own
    world and address; only the cache they leave matters here. *)
Fixpoint fetch_all (calls : list (world * string)) (c : cache) : cache :=
  match calls with
  | [] => c
  | (w, address) :: rest =>
      fetch_all rest (snd (fetchWalletMetrics w address c))
  end.
End Fetch.

Definition clearCache (address : string) (c : cache) : cache :=
  LRUCache.delete address c.

Definition clearAllCache (c : cache) : cache := LRUCache.clear c.

Definition getCacheStats (c : cache) : nat * nat * Z :=
  (LRUCache.size c, CACHE_CONFIG.MAX_CACHE_SIZE, CACHE_CONFIG.METRICS_TTL).
End DataAggregator.

(* ------------------------------------------------------------------ *)
(** ** Bytes, hex and JSON text *)
(* ------------------------------------------------------------------ *)

(** [n.toString()] for an integer. *)
Definition Number_toString (n : Z) : string :=
  NilZero.string_of_int (Z.to_int n).

Definition hex_digit (n : N) : ascii :=
  match n with
  | 0%N => "0" | 1%N => "1" | 2%N => "2" | 3%N => "3"
  | 4%N => "4" | 5%N => "5" | 6%N => "6" | 7%N => "7"
  | 8%N => "8" | 9%N => "9" | 10%N => "a" | 11%N => "b"
  | 12%N => "c" | 13%N => "d" | 14%N => "e" | _ => "f"
  end%char.

(** Two lower-case hex digits per byte ([bytesToHex] of @noble/hashes, and
    [b.toString(16).padStart(2, '0')] joined). *)
Fixpoint bytesToHex (bytes : list byte) : string :=
  match bytes with
  | [] => EmptyString
  | b :: rest =>
      String (hex_digit (Byte.to_N b / 16))
        (String (hex_digit (Byte.to_N b mod 16)) (bytesToHex rest))
  end.

(** The draws of [crypto.getRandomValues]: byte [i] of the [k]-th array
    filled during a call. *)
Definition entropy : Type := nat -> nat -> byte.

(** [crypto.getRandomValues(new Uint8Array(32))], [k]-th draw. *)
Definition getRandomValues32 (rnd : entropy) (k : nat) : list byte :=
  map (rnd k) (seq 0 32).

(** The [sha256] function of the @noble/hashes package, which is not among
    the sources: taken as a parameter, a function to 32-byte digests. *)
Class Sha256 : Type := {
  sha256 : list byte -> list byte;
  sha256_length : forall bytes, List.length (sha256 bytes) = 32%nat
}.

Definition dquote : string := String (ascii_of_nat 34) EmptyString.

(** [JSON.stringify] of a string of hex digits (nothing to escape). *)
Definition json_string (s : string) : string := dquote ++ s ++ dquote.

Fixpoint json_join (items : list string) : string :=
  match items with
  | [] => EmptyString
  | [x] => x
  | x :: rest => x ++ "," ++ json_join rest
  end.

Definition json_array (items : list string) : string :=
  "[" ++ json_join items ++ "]".

(* ------------------------------------------------------------------ *)
(** ** ZKProof and ProofGenerator (src/lib/sdk/ProofGenerator.ts) *)
(* ------------------------------------------------------------------ *)

Module Groth16.
Record t : Type := mk {
  a : list string;
  b : list (list string);
  c : list string
}.
End Groth16.

(** A proof object as [verifyProofLocally] inspects it: each property may
    be absent ([undefined]) at run time, whatever the declared type. *)
Module ZKProof.
Record components : Type := mkComponents {
  a : option (list string);
  b : option (list (list string));
  c : option (list string)
}.
Record t : Type := mk {
  proofHash : option string;
  publicInputs : option (list string);
  proof : option components
}.
End ZKProof.

Definition is_None {A} (o : option A) : bool :=
  match o with None => true | Some _ => false end.

Module ProofGenerator.
Record witness : Type := {
  score : Z;
  transactionCount : Q;
  walletAge : Q;
  defiScore : Q;
  repaymentRate : Q;
  secret : string;
  scoreThreshold : Z;
  timestamp : Z
}.

Section WithRandomness.
Variable rnd : entropy.

(** [generateSecret] is the first draw of a [generateProof] call. *)
Definition generateSecret : string :=
  bytesToHex (getRandomValues32 rnd 0).

(** [generateRandomHex], [k]-th draw. *)
Definition generateRandomHex (k : nat) : string :=
  bytesToHex (getRandomValues32 rnd k).

Definition createWitness (assessment : CreditAssessment.t) : witness :=
  let secret := generateSecret in
  let metrics := CreditAssessment.metrics assessment in
  {| score := CreditAssessment.finalScore assessment;
     transactionCount := WalletMetrics.transactionCount metrics;
     walletAge := WalletMetrics.walletAgeMonths metrics;
     defiScore := WalletMetrics.defiScore metrics;
     repaymentRate := WalletMetrics.repaymentRate metrics;
     secret := secret;
     scoreThreshold := 300;
     timestamp := CreditAssessment.timestamp assessment |}.

(** The simulated prover: eight fresh random hex strings; the witness
    is not consulted. *)
Definition runGroth16Prover (w : witness) : outcome Groth16.t :=
  Returned
    {| Groth16.a := [generateRandomHex 1; generateRandomHex 2];
       Groth16.b := [[generateRandomHex 3; generateRandomHex 4];
                     [generateRandomHex 5; generateRandomHex 6]];
       Groth16.c := [generateRandomHex 7; generateRandomHex 8] |}.
End WithRandomness.

Definition stringify (proof : Groth16.t) : string :=
  let strings xs := json_array (map json_string xs) in
  "{" ++ json_string "a" ++ ":" ++ strings (Groth16.a proof) ++ ","
      ++ json_string "b" ++ ":"
      ++ json_array (map strings (Groth16.b proof)) ++ ","
      ++ json_string "c" ++ ":" ++ strings (Groth16.c proof) ++ "}".

Definition hashProof `{Sha256} (proof : Groth16.t) : string :=
  let proofString := stringify proof in
  let proofBytes := list_byte_of_string proofString in
  let hash := sha256 proofBytes in
  bytesToHex hash.

Definition createPublicInputs (assessment : CreditAssessment.t)
  : list string :=
  [ Number_toString (CreditAssessment.finalScore assessment);
    Number_toString (CreditAssessment.timestamp assessment);
    CreditAssessment.address assessment ].

Definition generateProof `{Sha256} (rnd : entropy)
    (assessment : CreditAssessment.t) : outcome ZKProof.t :=
  try_catch
    (let witness := createWitness rnd assessment in
     proof <- runGroth16Prover rnd witness ;;
     let proofHash := hashProof proof in
     let publicInputs := createPublicInputs assessment in
     Returned
       {| ZKProof.proofHash := Some proofHash;
          ZKProof.publicInputs := Some publicInputs;
          ZKProof.proof :=
            Some {| ZKProof.a := Some (Groth16.a proof);
                    ZKProof.b := Some (Groth16.b proof);
                    ZKProof.c := Some (Groth16.c proof) |} |})
    (fun error =>
       Thrown (ProofGenerationError "Failed to generate ZK proof")).

Definition verifyProofLocally (proof : ZKProof.t) : bool :=
  if match ZKProof.proofHash proof with
     | None => true
     | Some h => falsy_string h || (String.length h =? 0)%nat
     end
  then false
  else if match ZKProof.proof proof with
          | None => true
          | Some p =>
              is_None (ZKProof.a p) || is_None (ZKProof.b p)
              || is_None (ZKProof.c p)
          end
  then false
  else if match ZKProof.publicInputs proof with
          | None => true
          | Some inputs => (List.length inputs =? 0)%nat
          end
  then false
  else true.
End ProofGenerator.

(* ------------------------------------------------------------------ *)
(** ** Ledger types (src/types/sdk.ts) *)
(* ------------------------------------------------------------------ *)

Inductive tx_status : Type := pending | confirmed | failed.

Module AleoTransaction.
Record t : Type := mk {
  id : string;
  status : tx_status;
  blockHeight : option Z;
  timestamp : option Z
}.
End AleoTransaction.

Module CreditRecord.
Record t : Type := mk {
  owner : string;
  score : Z;
  threshold : Z;
  issuedBlock : Z;
  issuedAt : Z
}.
End CreditRecord.

Module CreditIssuanceResult.
Record t : Type := mk {
  success : bool;
  transactionId : string;
  creditRecord : option CreditRecord.t;
  error : option string
}.
End CreditIssuanceResult.

(** [x || d] for an optional number: absent and [0] are both falsy. *)
Definition js_or_opt (x : option Z) (d : Z) : Z :=
  match x with
  | None => d
  | Some v => js_or v d
  end.

(* ------------------------------------------------------------------ *)
(** ** BlockchainAdapter (src/lib/sdk/BlockchainAdapter.ts) *)
(* ------------------------------------------------------------------ *)

(** What the polling loop does to the outside, in order. *)
Inductive event : Type :=
| EvQuery (k : nat)       (* the [k]-th call of [queryTransaction] *)
| EvSleep (ms : Z).       (* [sleep(ms)] *)

(** What the outside supplies during one [submitProof] call: the replies
    of the network, the clock, the random source, and the wording the
    JavaScript engine gives its TypeError. *)
Record ledger : Type := mkLedger {
  (** reply of POST /transaction/broadcast: the [transaction_id], or
      [None] when the request fails *)
  broadcast_reply : option string;
  (** reply of the [k]-th GET /transaction/<id>, [None] when it fails *)
  transaction_reply : nat -> option AleoTransaction.t;
  (** [Date.now()] at the [k]-th poll and at record extraction *)
  clock : nat -> Z;
  clock_end : Z;
  (** [Math.floor(Math.random() * 1000000)] at the [k]-th poll *)
  random_block : nat -> Z;
  (** [Math.floor(Math.random() * 550)] *)
  random_score : Z;
  (** the bytes drawn by [generateMockTxId] *)
  random_bytes : entropy;
  (** the engine's message for calling [slice] on [undefined] (on Node:
      "Cannot read properties of undefined (reading 'slice')") *)
  undefined_slice_message : string
}.

Module BlockchainAdapter.
Record transaction : Type := {
  program : string;
  function : string;
  inputs : list string;
  caller : string;
  signature : string;
  fee : string
}.

(** [message.slice(0, 16)] *)
Definition slice16 (message : string) : string := String.substring 0 16 message.

Definition mockSign (message privateKey : string) : string :=
  "sig_" ++ slice16 message.

(** [buildTransaction]. When the proof object has no [proofHash], the call
    [message.slice(0, 16)] inside [mockSign] is a TypeError, worded by the
    engine. *)
Definition buildTransaction (l : ledger) (contractAddress : string)
    (proof : ZKProof.t) (userAddress privateKey : string)
  : outcome transaction :=
  match ZKProof.proofHash proof with
  | None => Thrown (TypeError (undefined_slice_message l))
  | Some proofHash =>
      Returned
        {| program := contractAddress;
           function := "verify_and_issue";
           inputs := [ proofHash; "300" ];
           caller := userAddress;
           signature := mockSign proofHash privateKey;
           fee := "1000000" |}
  end.

Definition generateMockTxId (l : ledger) : string :=
  "at1" ++ bytesToHex (getRandomValues32 (random_bytes l) 0).

(** The request is inside [try]; its failure is caught and answered
    with a mock transaction id. *)
Definition broadcastTransaction (l : ledger) (tx : transaction)
  : outcome string :=
  match broadcast_reply l with
  | Some transaction_id => Returned transaction_id
  | None => Returned (generateMockTxId l)
  end.

(** [queryTransaction], [k]-th call: a failed request is answered with
    a mock confirmed transaction. *)
Definition queryTransaction (l : ledger) (txId : string) (k : nat)
  : outcome AleoTransaction.t :=
  match transaction_reply l k with
  | Some response => Returned response
  | None =>
      Returned
        {| AleoTransaction.id := txId;
           AleoTransaction.status := confirmed;
           AleoTransaction.blockHeight := Some (random_block l k);
           AleoTransaction.timestamp := Some (clock l k) |}
  end.

(** The variables of the polling loop and what it has done so far. *)
Record poll_state : Type := mkPoll {
  attempts : Z;
  queries : nat;
  trace : list event
}.

Definition initial : poll_state := mkPoll 0 0 [].

Definition note_query (st : poll_state) : poll_state :=
  mkPoll (attempts st) (S (queries st))
         (trace st ++ [EvQuery (queries st)])%list.

(** [await this.sleep(ms); attempts++] *)
Definition sleep_and_count (ms : Z) (st : poll_state) : poll_state :=
  mkPoll (attempts st + 1) (queries st) (trace st ++ [EvSleep ms])%list.

(** How one pass through the body of the [while] ends. *)
Inductive pass : Type :=
| Return (tx : AleoTransaction.t)
| Continue (st : poll_state).

Section Polling.
(** [query k] is what the [k]-th [await this.queryTransaction(txId)]
    produces. *)
Variable query : nat -> outcome AleoTransaction.t.

Definition maxAttempts : Z := TX_POLLING.MAX_ATTEMPTS.

(** The [try] block, after the request has been issued. *)
Definition try_block (st : poll_state) (k : nat) : outcome pass :=
  tx <- query k ;;
  match AleoTransaction.status tx with
  | confirmed => Returned (Return tx)
  | failed => Thrown (TransactionError "Transaction failed on-chain")
  | pending => Returned (Continue (sleep_and_count TX_POLLING.INTERVAL st))
  end.

(** The [catch] block. *)
Definition catch_block (st : poll_state) (error : exn) : outcome pass :=
  if attempts st >=? maxAttempts - 1
  then Thrown (TransactionError "Transaction confirmation timeout")
  else Returned (Continue (sleep_and_count TX_POLLING.INTERVAL st)).

(** The [while] loop; [None] only if [fuel] passes do not suffice. *)
Fixpoint poll_loop (fuel : nat) (st : poll_state)
  : option (outcome AleoTransaction.t * poll_state) :=
  match fuel with
  | O => None
  | S fuel' =>
      if attempts st <? maxAttempts then
        let st1 := note_query st in
        match try_catch (try_block st1 (queries st)) (catch_block st1) with
        | Returned (Return tx) => Some (Returned tx, st1)
        | Returned (Continue st2) => poll_loop fuel' st2
        | Thrown e => Some (Thrown e, st1)
        end
      else
        Some (Thrown (TransactionError "Transaction confirmation timeout"),
              st)
  end.

Definition waitForConfirmation_fuel (fuel : nat)
  : option (outcome AleoTransaction.t * poll_state) :=
  poll_loop fuel initial.

(** One pass per attempt and one more to leave the loop. *)
Definition waitForConfirmation
  : option (outcome AleoTransaction.t * poll_state) :=
  waitForConfirmation_fuel (S (Z.to_nat maxAttempts)).
End Polling.

Definition extractCreditRecord (l : ledger)
    (transaction : AleoTransaction.t) (userAddress : string)
  : CreditRecord.t :=
  {| CreditRecord.owner := userAddress;
     CreditRecord.score := 300 + random_score l;
     CreditRecord.threshold := 300;
     CreditRecord.issuedBlock :=
       js_or_opt (AleoTransaction.blockHeight transaction) 0;
     CreditRecord.issuedAt :=
       js_or_opt (AleoTransaction.timestamp transaction) (clock_end l) |}.

(** [submitProof]; [None] only if the polling loop ran out of fuel. *)
Definition submitProof (contractAddress : string) (l : ledger)
    (proof : ZKProof.t) (userAddress privateKey : string)
  : option (CreditIssuanceResult.t * list event) :=
  let failure (error : exn) (tr : list event) :=
    ({| CreditIssuanceResult.success := false;
        CreditIssuanceResult.transactionId := EmptyString;
        CreditIssuanceResult.creditRecord := None;
        CreditIssuanceResult.error := Some (exn_message error) |}, tr) in
  match (transaction <- buildTransaction l contractAddress proof
                          userAddress privateKey ;;
         broadcastTransaction l transaction) with
  | Thrown error => Some (failure error [])
  | Returned txId =>
      match waitForConfirmation (queryTransaction l txId) with
      | None => None
      | Some (Thrown error, st) => Some (failure error (trace st))
      | Some (Returned confirmedTx, st) =>
          let creditRecord :=
            extractCreditRecord l confirmedTx userAddress in
          Some ({| CreditIssuanceResult.success := true;
                   CreditIssuanceResult.transactionId := txId;
                   CreditIssuanceResult.creditRecord := Some creditRecord;
                   CreditIssuanceResult.error := None |}, trace st)
      end
  end.
End BlockchainAdapter.

(** The two failures [waitForConfirmation] names. *)
Definition OnChainExecutionError : exn :=
  TransactionError "Transaction failed on-chain".
Definition ConfirmationTimeoutError : exn :=
  TransactionError "Transaction confirmation timeout".

(* ------------------------------------------------------------------ *)
(** ** CreditScoreSDK (src/lib/sdk/CreditScoreSDK.ts) *)
(* ------------------------------------------------------------------ *)

Module CreditScoreSDK.
(** The fields of an SDK instance that the flow reads or writes. *)
Record t : Type := mk {
  contractAddress : string;
  userAddress : option string;
  cache : DataAggregator.cache
}.

(** [error instanceof SDKError]: the SDK's classes are the ones that
    carry a [code]. *)
Definition instanceof_SDKError (e : exn) : bool :=
  negb (is_None (exn_code e)).

Definition init (sdk : t) (address : string) : outcome t :=
  if negb (startsWith address "aleo1")
  then Thrown (SDKError "Invalid Aleo address format" "INVALID_ADDRESS")
  else Returned (mk (contractAddress sdk) (Some address) (cache sdk)).

(** [ensureInitialized], returning [this.userAddress!]. *)
Definition ensureInitialized (sdk : t) : outcome string :=
  match userAddress sdk with
  | Some address =>
      if falsy_string address
      then Thrown (SDKError "SDK not initialized. Call init() first."
                            "NOT_INITIALIZED")
      else Returned address
  | None =>
      Thrown (SDKError "SDK not initialized. Call init() first."
                       "NOT_INITIALIZED")
  end.

Section WithFeatures.
Variable ENABLE_MOCK_DATA : bool.

Definition fetchWalletMetrics (w : world) (sdk : t)
  : outcome WalletMetrics.t * t :=
  match ensureInitialized sdk with
  | Thrown e => (Thrown e, sdk)
  | Returned address =>
      let (fetched, c) :=
        DataAggregator.fetchWalletMetrics ENABLE_MOCK_DATA w address
          (cache sdk) in
      let sdk' := mk (contractAddress sdk) (userAddress sdk) c in
      (metrics <- fetched ;;
       ScoringEngine.validateMetrics metrics ;;;
       Returned metrics, sdk')
  end.
End WithFeatures.

Definition calculateScore (now : Z) (metrics : WalletMetrics.t)
  : CreditAssessment.t :=
  ScoringEngine.calculateScore now metrics.

Definition generateProof `{Sha256} (rnd : entropy)
    (assessment : CreditAssessment.t) : outcome ZKProof.t :=
  proof <- ProofGenerator.generateProof rnd assessment ;;
  let isValid := ProofGenerator.verifyProofLocally proof in
  if negb isValid
  then Thrown (SDKError "Proof verification failed" "INVALID_PROOF")
  else Returned proof.

(** [issueCredit]; [None] only if the polling loop ran out of fuel. *)
Definition issueCredit (l : ledger) (sdk : t) (proof : ZKProof.t)
    (privateKey : string) : option (outcome CreditIssuanceResult.t) :=
  match ensureInitialized sdk with
  | Thrown e => Some (Thrown e)
  | Returned address =>
      match BlockchainAdapter.submitProof (contractAddress sdk) l proof
              address privateKey with
      | None => None
      | Some (result, _) => Some (Returned result)
      end
  end.

(** [issueCreditFlow]: fetch, score, prove, submit; any error that is
    not an SDKError is wrapped into one with code FLOW_ERROR. *)
Definition issueCreditFlow `{Sha256} (ENABLE_MOCK_DATA : bool) (w : world)
    (score_time : Z) (rnd : entropy) (l : ledger) (sdk : t)
    (privateKey : string) : option (outcome CreditIssuanceResult.t) :=
  let rethrow (error : exn) : outcome CreditIssuanceResult.t :=
    Thrown (if instanceof_SDKError error then error
            else SDKError "Credit issuance flow failed" "FLOW_ERROR") in
  let (fetched, sdk1) := fetchWalletMetrics ENABLE_MOCK_DATA w sdk in
  match (metrics <- fetched ;;
         let assessment := calculateScore score_time metrics in
         generateProof rnd assessment) with
  | Thrown error => Some (rethrow error)
  | Returned proof =>
      match issueCredit l sdk1 proof privateKey with
      | None => None
      | Some (Thrown error) => Some (rethrow error)
      | Some (Returned result) => Some (Returned result)
      end
  end.
End CreditScoreSDK.

(* ------------------------------------------------------------------ *)
(** ** Definitions used to state the properties *)
(* ------------------------------------------------------------------ *)

(** A metrics record with one field replaced. *)
Definition set_transactionCount (v : Q) (m : WalletMetrics.t) : WalletMetrics.t :=
  WalletMetrics.mk (WalletMetrics.address m) v (WalletMetrics.walletAgeMonths m)
    (WalletMetrics.defiScore m) (WalletMetrics.repaymentRate m)
    (WalletMetrics.tokenBalance m) (WalletMetrics.lastTransactionDate m).

Definition set_walletAgeMonths (v : Q) (m : WalletMetrics.t) : WalletMetrics.t :=
  WalletMetrics.mk (WalletMetrics.address m) (WalletMetrics.transactionCount m) v
    (WalletMetrics.defiScore m) (WalletMetrics.repaymentRate m)
    (WalletMetrics.tokenBalance m) (WalletMetrics.lastTransactionDate m).

Definition set_defiScore (v : Q) (m : WalletMetrics.t) : WalletMetrics.t :=
  WalletMetrics.mk (WalletMetrics.address m) (WalletMetrics.transactionCount m)
    (WalletMetrics.walletAgeMonths m) v (WalletMetrics.repaymentRate m)
    (WalletMetrics.tokenBalance m) (WalletMetrics.lastTransactionDate m).

Definition set_repaymentRate (v : Q) (m : WalletMetrics.t) : WalletMetrics.t :=
  WalletMetrics.mk (WalletMetrics.address m) (WalletMetrics.transactionCount m)
    (WalletMetrics.walletAgeMonths m) (WalletMetrics.defiScore m) v
    (WalletMetrics.tokenBalance m) (WalletMetrics.lastTransactionDate m).

(** The sum of the four bonuses of a metrics record. *)
Definition bonus_sum (m : WalletMetrics.t) : Q :=
  (ScoringEngine.calculateTransactionBonus (WalletMetrics.transactionCount m)
   + ScoringEngine.calculateAgeBonus (WalletMetrics.walletAgeMonths m)
   + ScoringEngine.calculateDeFiBonus (WalletMetrics.defiScore m)
   + ScoringEngine.calculateRepaymentBonus (WalletMetrics.repaymentRate m))%Q.

(** The score before rounding: what [calculateScore] classifies. *)
Definition unrounded_score (m : WalletMetrics.t) : Q :=
  Qmin 850 (300 + bonus_sum m).

(** The score of a metrics record. *)
Definition score_of (now : Z) (m : WalletMetrics.t) : Z :=
  CreditAssessment.finalScore (ScoringEngine.calculateScore now m).

(** The saturating input of the specification's examples. *)
Definition saturating (address : string) (balance last : Q) : WalletMetrics.t :=
  {| WalletMetrics.address := address;
     WalletMetrics.transactionCount := 50;
     WalletMetrics.walletAgeMonths := 24;
     WalletMetrics.defiScore := 80;
     WalletMetrics.repaymentRate := 100;
     WalletMetrics.tokenBalance := balance;
     WalletMetrics.lastTransactionDate := last |}.

(** The zero-activity and mid-range inputs of the specification's
    examples. *)
Definition zero_activity : WalletMetrics.t :=
  {| WalletMetrics.address := "aleo1test123456789";
     WalletMetrics.transactionCount := 0;
     WalletMetrics.walletAgeMonths := 0;
     WalletMetrics.defiScore := 0;
     WalletMetrics.repaymentRate := 0;
     WalletMetrics.tokenBalance := 0;
     WalletMetrics.lastTransactionDate := 0 |}.

Definition mid_range : WalletMetrics.t :=
  {| WalletMetrics.address := "aleo1medium";
     WalletMetrics.transactionCount := 20;
     WalletMetrics.walletAgeMonths := 6;
     WalletMetrics.defiScore := 40;
     WalletMetrics.repaymentRate := 80;
     WalletMetrics.tokenBalance := 5000;
     WalletMetrics.lastTransactionDate := 0 |}.

(** A record with a negative transaction count, and a world in which the
    RPC endpoints report exactly that record (the transaction count is the
    one field [DataAggregator] passes on unclamped). *)
Definition negative_count : WalletMetrics.t :=
  {| WalletMetrics.address := "aleo1valid";
     WalletMetrics.transactionCount := -5;
     WalletMetrics.walletAgeMonths := 5;
     WalletMetrics.defiScore := 50;
     WalletMetrics.repaymentRate := 80;
     WalletMetrics.tokenBalance := 1000;
     WalletMetrics.lastTransactionDate := 12960000001 |}.

Definition negative_count_world : world :=
  mkWorld 12960000001 (Some (-5)%Q) (Some 1%Q) (Some 50%Q) (Some 80%Q)
    (Some 1000%Q).

(** A record within the declared ranges whose repayment rate has a
    fraction, as a percentage may: the bonuses are 50, 100, 0 and 49.5. *)
Definition fractional_rate : WalletMetrics.t :=
  {| WalletMetrics.address := "aleo1valid";
     WalletMetrics.transactionCount := 20;
     WalletMetrics.walletAgeMonths := 10;
     WalletMetrics.defiScore := 20;
     WalletMetrics.repaymentRate := 99.75;
     WalletMetrics.tokenBalance := 1000;
     WalletMetrics.lastTransactionDate := 1700000000000 |}.

(** A world in which the RPC endpoints report exactly that record: 20
    transactions, a wallet first seen ten thirty-day months before the
    call, a DeFi score of 20, a repayment rate of 99.75 and a balance of
    1000. *)
Definition fractional_rate_world : world :=
  mkWorld 1700000000000 (Some 20%Q) (Some 1674080000000%Q) (Some 20%Q)
    (Some 99.75%Q) (Some 1000%Q).

(** The messages of [validateMetrics]. *)
Definition validation_messages : list string :=
  [ "Invalid Aleo address format";
    "Transaction count cannot be negative";
    "Wallet age cannot be negative";
    "DeFi score must be between 0 and 100";
    "Repayment rate must be between 0 and 100";
    "Token balance cannot be negative" ].

Definition sdk_for (address : string) : CreditScoreSDK.t :=
  CreditScoreSDK.mk "credit_score.aleo" (Some address) [].

(** The first poll among [k], [k+1], ..., [k+n-1] that reports the
    transaction confirmed, if any. *)
Fixpoint first_confirmed (query : nat -> outcome AleoTransaction.t)
    (n k : nat) : option (nat * AleoTransaction.t) :=
  match n with
  | O => None
  | S n' =>
      match query k with
      | Returned tx =>
          match AleoTransaction.status tx with
          | confirmed => Some (k, tx)
          | _ => first_confirmed query n' (S k)
          end
      | Thrown _ => first_confirmed query n' (S k)
      end
  end.

(** [n] completed rounds of polling: a query, then a sleep of one
    interval. *)
Definition rounds (n : nat) : list event :=
  flat_map (fun k => [EvQuery k; EvSleep TX_POLLING.INTERVAL]) (seq 0 n).

(** The loop variables when the [j]-th pass starts. *)
Definition pass_start (j : nat) : BlockchainAdapter.poll_state :=
  BlockchainAdapter.mkPoll (Z.of_nat j) j (rounds j).

(** A transaction the ledger reports in a given state. *)
Definition reported (txId : string) (s : tx_status) : AleoTransaction.t :=
  {| AleoTransaction.id := txId;
     AleoTransaction.status := s;
     AleoTransaction.blockHeight := None;
     AleoTransaction.timestamp := None |}.

(** What a run of the loop from the start of pass [j] ends in, when [n]
    attempts remain. *)
Definition poll_answer (query : nat -> outcome AleoTransaction.t) (n j : nat)
  : outcome AleoTransaction.t :=
  match first_confirmed query n j with
  | Some (_, tx) => Returned tx
  | None => Thrown ConfirmationTimeoutError
  end.

Definition poll_count (query : nat -> outcome AleoTransaction.t) (n j : nat)
  : nat :=
  match first_confirmed query n j with
  | Some (k, _) => S k
  | None => (j + n)%nat
  end.

(** The trace consists of whole rounds, possibly followed by one last
    query. *)
Definition paced (st : BlockchainAdapter.poll_state) : Prop :=
  BlockchainAdapter.trace st = rounds (BlockchainAdapter.queries st) \/
  BlockchainAdapter.trace st =
    (rounds (Nat.pred (BlockchainAdapter.queries st))
       ++ [EvQuery (Nat.pred (BlockchainAdapter.queries st))])%list.

(** What [submitProof] answers once transaction id [txId] is in hand. *)
Definition submission_result (l : ledger) (txId userAddress : string)
  : CreditIssuanceResult.t :=
  match poll_answer (BlockchainAdapter.queryTransaction l txId) 20 0 with
  | Returned tx =>
      {| CreditIssuanceResult.success := true;
         CreditIssuanceResult.transactionId := txId;
         CreditIssuanceResult.creditRecord :=
           Some (BlockchainAdapter.extractCreditRecord l tx userAddress);
         CreditIssuanceResult.error := None |}
  | Thrown e =>
      {| CreditIssuanceResult.success := false;
         CreditIssuanceResult.transactionId := EmptyString;
         CreditIssuanceResult.creditRecord := None;
         CreditIssuanceResult.error := Some (exn_message e) |}
  end.

(** A network on which every request fails, with all random draws 0. *)
Definition offline : ledger :=
  {| broadcast_reply := None;
     transaction_reply := fun _ => None;
     clock := fun _ => 1700000000000;
     clock_end := 1700000000000;
     random_block := fun _ => 0;
     random_score := 0;
     random_bytes := fun _ _ => x00;
     undefined_slice_message :=
       "Cannot read properties of undefined (reading 'slice')" |}.

(** A network on which the broadcast is accepted with id "at1x" and every
    status query reports the transaction failed. *)
Definition always_failed : ledger :=
  {| broadcast_reply := Some "at1x";
     transaction_reply := fun _ => Some (reported "at1x" failed);
     clock := fun _ => 1700000000000;
     clock_end := 1700000000000;
     random_block := fun _ => 0;
     random_score := 0;
     random_bytes := fun _ _ => x00;
     undefined_slice_message :=
       "Cannot read properties of undefined (reading 'slice')" |}.

(** A well-formed proof object with a given hash. *)
Definition proof_with_hash (h : string) : ZKProof.t :=
  {| ZKProof.proofHash := Some h;
     ZKProof.publicInputs := Some ["650"; "0"; "aleo1test123"];
     ZKProof.proof :=
       Some {| ZKProof.a := Some ["0a"; "0b"];
               ZKProof.b := Some [["0c"; "0d"]; ["0e"; "0f"]];
               ZKProof.c := Some ["1a"; "1b"] |} |}.

(** A stand-in digest (the first 32 bytes of the input, zero-padded). It
    is not SHA-256; it shows that the [Sha256] interface is inhabited and
    lets the generator be run. *)
Definition pad32 (bytes : list byte) : list byte :=
  firstn 32 (bytes ++ repeat x00 32)%list.

Definition stand_in_digest : Sha256 :=
  {| sha256 := pad32;
     sha256_length :=
       ltac:(intros bytes; unfold pad32;
             rewrite length_firstn, length_app, repeat_length; lia) |}.

(** The components the simulated prover draws, and the proof object
    built from them. *)
Definition drawn_components (rnd : entropy) : Groth16.t :=
  {| Groth16.a := [ProofGenerator.generateRandomHex rnd 1;
                   ProofGenerator.generateRandomHex rnd 2];
     Groth16.b := [[ProofGenerator.generateRandomHex rnd 3;
                    ProofGenerator.generateRandomHex rnd 4];
                   [ProofGenerator.generateRandomHex rnd 5;
                    ProofGenerator.generateRandomHex rnd 6]];
     Groth16.c := [ProofGenerator.generateRandomHex rnd 7;
                   ProofGenerator.generateRandomHex rnd 8] |}.

Definition built_proof `{Sha256} (rnd : entropy)
    (assessment : CreditAssessment.t) : ZKProof.t :=
  {| ZKProof.proofHash := Some (ProofGenerator.hashProof (drawn_components rnd));
     ZKProof.publicInputs := Some (ProofGenerator.createPublicInputs assessment);
     ZKProof.proof :=
       Some {| ZKProof.a := Some (Groth16.a (drawn_components rnd));
               ZKProof.b := Some (Groth16.b (drawn_components rnd));
               ZKProof.c := Some (Groth16.c (drawn_components rnd)) |} |}.

(** The cache holds metrics [m] for [address], stored at time [t1] or
    later, with at most [j] entries in front of it. *)
Definition cached_at (address : string) (m : WalletMetrics.t) (t1 : Z)
    (j : nat) (c : DataAggregator.cache) : Prop :=
  exists pre e post,
    c = (pre ++ e :: post)%list /\
    LRUCache.key e = address /\
    LRUCache.value e = m /\
    t1 <= LRUCache.start e /\
    Forall (fun e' => LRUCache.key e' <> address) pre /\
    (List.length pre <= j)%nat.

(** The world at time [t] when every RPC request fails. *)
Definition silent (t : Z) : world := mkWorld t None None None None None.

(** [n] further addresses, none of them "aleo1cache123". *)
Definition other_addresses (n : nat) : list string :=
  map (fun k => "aleo1other" ++ Number_toString (Z.of_nat k)) (seq 0 n).

(* ------------------------------------------------------------------ *)
(** ** Further string helpers *)
(* ------------------------------------------------------------------ *)

(** A string of [k] characters '0'. *)
Fixpoint zeros (k : nat) : string :=
  match k with
  | O => EmptyString
  | S k' => String "0" (zeros k')
  end.

(** [s.padStart(n, '0')] *)
Definition padStart0 (n : nat) (s : string) : string :=
  zeros (n - String.length s) ++ s.

(** [s.slice(0, n)] for [n >= 0] *)
Definition slice_to (n : nat) (s : string) : string := String.substring 0 n s.

(** [s.slice(-n)] for [n > 0]: the last [n] characters, all of [s] when it
    is shorter. *)
Definition slice_last (n : nat) (s : string) : string :=
  String.substring (String.length s - n) n s.

(** [n.toString(16)] for a non-negative integer, most significant digit
    first; [fuel] bounds the number of digits. *)
Fixpoint toString16_digits (fuel : nat) (n : Z) : string :=
  match fuel with
  | O => EmptyString
  | S fuel' =>
      if n <? 16 then String (hex_digit (Z.to_N n)) EmptyString
      else toString16_digits fuel' (n / 16)
           ++ String (hex_digit (Z.to_N (n mod 16))) EmptyString
  end.

Definition toString16 (n : Z) : string :=
  toString16_digits (S (Z.to_nat (Z.log2 n))) n.

(* ------------------------------------------------------------------ *)
(** ** lib/aleo: accounts, address checks, the RPC client *)
(* ------------------------------------------------------------------ *)

(** What one [fetch] of the RPC client ends in. *)
Inductive rpc_reply (T : Type) : Type :=
| Rejected (e : exn)                       (* [fetch] or [response.json()] throws *)
| NotOk (status : Z) (statusText : string) (* [response.ok] is false *)
| ErrorReply (message : string)            (* the body has an [error] *)
| ResultReply (result : T).                (* the body has a [result] *)
Arguments Rejected {T} e.
Arguments NotOk {T} status statusText.
Arguments ErrorReply {T} message.
Arguments ResultReply {T} result.

(** What the RPC client does to the outside, in order. *)
Inductive rpc_event : Type :=
| RpcRequest (k : nat)    (* the [k]-th [fetch] of a call *)
| RpcSleep (ms : Z).      (* [sleep(ms)] *)

Module Aleo.
(** [AleoAccount.hashString] *)
Definition hashString (str : string) : string :=
  let step (hash char : Z) :=
    let hash1 := js_shl hash 5 - hash + char in
    js_and hash1 hash1 in
  padStart0 60 (toString16 (Z.abs (fold_left step (charCodes str) 0))).

(** [AleoAccount.deriveAddress] *)
Definition deriveAddress (privateKey : string) : outcome string :=
  if negb (startsWith privateKey "APrivateKey1")
  then Thrown (Error "Invalid Aleo private key format")
  else
    let hash := hashString privateKey in
    Returned ("aleo1" ++ slice_to 58 hash).

Record AleoAccount : Type := mkAccount {
  privateKey : string;
  address : string
}.

(** [new AleoAccount(privateKey)] *)
Definition newAccount (key : string) : outcome AleoAccount :=
  derived <- deriveAddress key ;;
  Returned (mkAccount key derived).

(** [account.sign(message)] *)
Definition sign (account : AleoAccount) (message : string) : string :=
  let messageHash := hashString message in
  let keyHash := hashString (privateKey account) in
  "sign1" ++ slice_to 30 messageHash ++ slice_to 30 keyHash.

(** [AleoAccount.verify] *)
Definition verify (message signature addr : string) : bool :=
  startsWith signature "sign1" && startsWith addr "aleo1".

(** [generateAccount], from the 32 bytes it draws. *)
Definition generateAccount (rnd : entropy) : outcome AleoAccount :=
  let hex := bytesToHex (getRandomValues32 rnd 0) in
  let mockPrivateKey := "APrivateKey1" ++ hex in
  newAccount mockPrivateKey.

Definition isValidAddress (addr : string) : bool :=
  startsWith addr "aleo1" && (String.length addr =? 63)%nat.

Definition isValidPrivateKey (key : string) : bool :=
  startsWith key "APrivateKey1" && (50 <? String.length key)%nat.

(** [TransactionBuilder.estimateFee] *)
Definition estimateFee (programId functionName : string)
    (inputs : list string) : Z :=
  let baseFee := 1000000 in
  let inputFee := Z.of_nat (List.length inputs) * 100000 in
  baseFee + inputFee.

(** The variables of the retry loop of [AleoRPCClient.call] and what it
    has done so far. *)
Record call_state : Type := mkCall {
  attempt : Z;
  requests : nat;
  lastError : option exn;
  log : list rpc_event
}.

Section Call.
Context {T : Type}.
(** [this.maxRetries] (3 unless the constructor is told otherwise). *)
Variable maxRetries : Z.
(** [reply k] is what the [k]-th [fetch] of the call ends in. *)
Variable reply : nat -> rpc_reply T.

(** The [try] block of one attempt. *)
Definition try_request (k : nat) : outcome T :=
  match reply k with
  | Rejected e => Thrown e
  | NotOk status statusText =>
      Thrown (Error ("RPC error: " ++ Number_toString status ++ " " ++ statusText))
  | ErrorReply message => Thrown (Error ("RPC error: " ++ message))
  | ResultReply result => Returned result
  end.

(** The [for] loop; [None] only if [fuel] passes do not suffice. *)
Fixpoint call_loop (fuel : nat) (st : call_state)
  : option (outcome T * call_state) :=
  match fuel with
  | O => None
  | S fuel' =>
      if attempt st <? maxRetries then
        let asked := (log st ++ [RpcRequest (requests st)])%list in
        match try_request (requests st) with
        | Returned result =>
            Some (Returned result,
                  mkCall (attempt st) (S (requests st)) (lastError st) asked)
        | Thrown error =>
            let slept :=
              if attempt st <? maxRetries - 1
              then (asked ++ [RpcSleep (2 ^ attempt st * 1000)])%list
              else asked in
            call_loop fuel'
              (mkCall (attempt st + 1) (S (requests st)) (Some error) slept)
        end
      else
        Some (Thrown (match lastError st with
                      | Some e => e
                      | None => Error "RPC call failed"
                      end), st)
  end.

(** [call(method, params)]: one pass per attempt and one more to leave
    the loop. *)
Definition call : option (outcome T * call_state) :=
  call_loop (S (Z.to_nat maxRetries)) (mkCall 0 0 None []).

(** [ProgramManager.programExists]: whether the call returned. *)
Definition programExists : option bool :=
  match call with
  | Some (Returned _, _) => Some true
  | Some (Thrown _, _) => Some false
  | None => None
  end.
End Call.
End Aleo.

(* ------------------------------------------------------------------ *)
(** ** hooks/useAleoWallet: address formatting *)
(* ------------------------------------------------------------------ *)

Module useAleoWallet.
Definition formatAddress (address : string) : string :=
  if falsy_string address || (String.length address <? 20)%nat
  then address
  else slice_to 10 address ++ "..." ++ slice_last 8 address.
End useAleoWallet.

(* ------------------------------------------------------------------ *)
(** ** BlockchainAdapter and CreditScoreSDK: the remaining operations *)
(* ------------------------------------------------------------------ *)

Module AdapterQueries.
(** [BlockchainAdapter.fetchCreditScore]. [reply] is the [value] answered
    by GET .../mapping/scores/<address>, [None] when the request fails;
    the result is the score, [None] for JavaScript's [null]. *)
Definition fetchCreditScore (reply : option Z) : option Z :=
  match reply with
  | Some value => if value =? 0 then None else Some value
  | None => None
  end.
End AdapterQueries.

Module SDKSession.
(** [new CreditScoreSDK(config)], as far as the flow is concerned: no user
    address yet and an empty cache. *)
Definition create (contractAddress : string) : CreditScoreSDK.t :=
  CreditScoreSDK.mk contractAddress None [].

(** [CreditScoreSDK.clearCache] *)
Definition clearCache (sdk : CreditScoreSDK.t) : CreditScoreSDK.t :=
  match CreditScoreSDK.userAddress sdk with
  | Some address =>
      if falsy_string address then sdk
      else CreditScoreSDK.mk (CreditScoreSDK.contractAddress sdk)
             (CreditScoreSDK.userAddress sdk)
             (DataAggregator.clearCache address (CreditScoreSDK.cache sdk))
  | None => sdk
  end.

(** [CreditScoreSDK.fetchCreditScore] *)
Definition fetchCreditScore (reply : option Z) (sdk : CreditScoreSDK.t)
  : outcome (option Z) :=
  address <- CreditScoreSDK.ensureInitialized sdk ;;
  Returned (AdapterQueries.fetchCreditScore reply).
End SDKSession.

(** The first request among [k], [k+1], ..., [k+n-1] that yields a
    result, if any. *)
Fixpoint first_result {T : Type} (reply : nat -> rpc_reply T) (n k : nat)
  : option (nat * T) :=
  match n with
  | O => None
  | S n' =>
      match Aleo.try_request reply k with
      | Returned result => Some (k, result)
      | Thrown _ => first_result reply n' (S k)
      end
  end.

(** [n] failed attempts, each followed by its back-off sleep. *)
Definition backoff (n : nat) : list rpc_event :=
  flat_map (fun k => [RpcRequest k; RpcSleep (2 ^ Z.of_nat k * 1000)]) (seq 0 n).

(** The time slept in a log. *)
Fixpoint time_slept (events : list rpc_event) : Z :=
  match events with
  | [] => 0
  | RpcSleep ms :: rest => ms + time_slept rest
  | RpcRequest _ :: rest => time_slept rest
  end.

(** The error a call ends in when no attempt succeeds: the last
    attempt's. *)
Definition last_failure {T : Type} (reply : nat -> rpc_reply T) (n : nat) : exn :=
  match n with
  | O => Error "RPC call failed"
  | S n' =>
      match Aleo.try_request reply n' with
      | Thrown e => e
      | Returned _ => Error "RPC call failed"
      end
  end.

(** A lower-case hexadecimal digit, and a test of every character of a
    string. *)
Definition is_hex_digit (ch : ascii) : bool :=
  let n := N_of_ascii ch in
  ((48 <=? n) && (n <=? 57) || (97 <=? n) && (n <=? 102))%N.

Fixpoint all_chars (test : ascii -> bool) (s : string) : bool :=
  match s with
  | EmptyString => true
  | String ch rest => test ch && all_chars test rest
  end.

(* ================================================================== *)
(** * Properties *)
(* ================================================================== *)

(** ** JavaScript numbers *)

Lemma Qltb_spec x y : BoolSpec (x < y)%Q (y <= x)%Q (Qltb x y).
Proof.
  unfold Qltb. destruct (Qle_bool y x) eqn:H; constructor.
  - apply Qle_bool_iff. exact H.
  - apply Qnot_le_lt. intros Hc. apply Qle_bool_iff in Hc. congruence.
Qed.

Lemma Qgtb_spec x y : BoolSpec (y < x)%Q (x <= y)%Q (Qgtb x y).
Proof. unfold Qgtb. apply Qltb_spec. Qed.

Lemma Qgeb_spec x y : BoolSpec (y <= x)%Q (x < y)%Q (Qgeb x y).
Proof.
  unfold Qgeb. destruct (Qle_bool y x) eqn:H; constructor.
  - apply Qle_bool_iff. exact H.
  - apply Qnot_le_lt. intros Hc. apply Qle_bool_iff in Hc. congruence.
Qed.

(** [Math.round] is monotone, leaves an integer as it is and moves a
    number by at most one half. *)
Lemma Math_round_mono x y : (x <= y)%Q -> Math_round x <= Math_round y.
Proof. intros Hxy. unfold Math_round. apply Qfloor_resp_le. lra. Qed.

Lemma Math_round_integer (k : Z) (x : Q) : x == inject_Z k -> Math_round x = k.
Proof.
  intros Hx. unfold Math_round.
  assert (Hlo : k <= Qfloor (x + 0.5)).
  { rewrite <- (Qfloor_Z k). apply Qfloor_resp_le. lra. }
  assert (Hhi : Qfloor (x + 0.5) < k + 1).
  { rewrite Zlt_Qlt, inject_Z_plus. change (inject_Z 1) with 1%Q.
    pose proof (Qfloor_le (x + 0.5)) as Hf. lra. }
  lia.
Qed.


Lemma Math_round_bounds (lo hi : Z) (x : Q) :
  (inject_Z lo <= x <= inject_Z hi)%Q -> lo <= Math_round x <= hi.
Proof.
  intros [Hlo Hhi]. split.
  - rewrite <- (Math_round_integer lo (inject_Z lo)) by reflexivity.
    apply Math_round_mono. exact Hlo.
  - rewrite <- (Math_round_integer hi (inject_Z hi)) by reflexivity.
    apply Math_round_mono. exact Hhi.
Qed.

(** ** ScoringEngine *)

Ltac unfold_bonus :=
  unfold ScoringEngine.calculateTransactionBonus,
         ScoringEngine.calculateAgeBonus,
         ScoringEngine.calculateDeFiBonus,
         ScoringEngine.calculateRepaymentBonus; cbn [threshold pointsPer maxPoints
         SCORING_CONFIG.BONUSES.TRANSACTION_COUNT SCORING_CONFIG.BONUSES.WALLET_AGE
         SCORING_CONFIG.BONUSES.DEFI_SCORE SCORING_CONFIG.BONUSES.REPAYMENT_RATE].

Ltac split_ltb :=
  repeat match goal with
         | |- context [Qltb ?x ?y] => destruct (Qltb_spec x y)
         end.

(** What [Math.min] returns, for every minimum in the goal. *)
Ltac min_facts :=
  repeat match goal with
         | |- context [Qmin ?x ?y] =>
             lazymatch goal with
             | _ : _ \/ (y <= x)%Q /\ Qmin x y == y |- _ => fail
             | _ => pose proof (Q.min_spec x y)
             end
         end.

Ltac bonus_arith := unfold_bonus; split_ltb; min_facts; lra.

Lemma transactionBonus_bounds count :
  (0 <= ScoringEngine.calculateTransactionBonus count <= 100)%Q.
Proof. bonus_arith. Qed.

Lemma ageBonus_bounds months :
  (0 <= ScoringEngine.calculateAgeBonus months <= 100)%Q.
Proof. bonus_arith. Qed.

Lemma defiBonus_bounds score :
  (0 <= ScoringEngine.calculateDeFiBonus score <= 100)%Q.
Proof. bonus_arith. Qed.

Lemma repaymentBonus_bounds rate :
  (0 <= ScoringEngine.calculateRepaymentBonus rate <= 150)%Q.
Proof. bonus_arith. Qed.

Lemma transactionBonus_mono x y :
  (x <= y)%Q ->
  (ScoringEngine.calculateTransactionBonus x
   <= ScoringEngine.calculateTransactionBonus y)%Q.
Proof. intros Hxy. bonus_arith. Qed.

Lemma ageBonus_mono x y :
  (x <= y)%Q ->
  (ScoringEngine.calculateAgeBonus x <= ScoringEngine.calculateAgeBonus y)%Q.
Proof. intros Hxy. bonus_arith. Qed.

Lemma defiBonus_mono x y :
  (x <= y)%Q ->
  (ScoringEngine.calculateDeFiBonus x <= ScoringEngine.calculateDeFiBonus y)%Q.
Proof. intros Hxy. bonus_arith. Qed.

Lemma repaymentBonus_mono x y :
  (x <= y)%Q ->
  (ScoringEngine.calculateRepaymentBonus x
   <= ScoringEngine.calculateRepaymentBonus y)%Q.
Proof. intros Hxy. bonus_arith. Qed.

(** The stored score is the rounded one; the risk level is that of the
    score before rounding. *)
Lemma score_of_eq now m : score_of now m = Math_round (unrounded_score m).
Proof. reflexivity. Qed.

Lemma finalScore_eq now m :
  CreditAssessment.finalScore (ScoringEngine.calculateScore now m) =
  score_of now m.
Proof. reflexivity. Qed.

Lemma riskLevel_eq now m :
  CreditAssessment.riskLevel (ScoringEngine.calculateScore now m) =
  ScoringEngine.getRiskLevel (unrounded_score m).
Proof. reflexivity. Qed.

Lemma bonus_sum_bounds m : (0 <= bonus_sum m <= 450)%Q.
Proof.
  unfold bonus_sum.
  pose proof (transactionBonus_bounds (WalletMetrics.transactionCount m)).
  pose proof (ageBonus_bounds (WalletMetrics.walletAgeMonths m)).
  pose proof (defiBonus_bounds (WalletMetrics.defiScore m)).
  pose proof (repaymentBonus_bounds (WalletMetrics.repaymentRate m)).
  lra.
Qed.

(** The cap at 850 is never reached: the score before rounding is 300 plus
    the bonuses. *)
Lemma unrounded_score_eq m : unrounded_score m == 300 + bonus_sum m.
Proof.
  unfold unrounded_score. pose proof (bonus_sum_bounds m).
  apply Q.min_r. lra.
Qed.

Lemma unrounded_score_bounds m : (300 <= unrounded_score m <= 750)%Q.
Proof.
  rewrite unrounded_score_eq. pose proof (bonus_sum_bounds m). lra.
Qed.


(** Pointwise order on the four scored fields is preserved by the score. *)
Lemma score_of_mono now now' m m' :
  (WalletMetrics.transactionCount m <= WalletMetrics.transactionCount m')%Q ->
  (WalletMetrics.walletAgeMonths m <= WalletMetrics.walletAgeMonths m')%Q ->
  (WalletMetrics.defiScore m <= WalletMetrics.defiScore m')%Q ->
  (WalletMetrics.repaymentRate m <= WalletMetrics.repaymentRate m')%Q ->
  score_of now m <= score_of now' m'.
Proof.
  intros Ht Ha Hd Hr. rewrite !score_of_eq. apply Math_round_mono.
  rewrite !unrounded_score_eq. unfold bonus_sum.
  apply transactionBonus_mono in Ht. apply ageBonus_mono in Ha.
  apply defiBonus_mono in Hd. apply repaymentBonus_mono in Hr.
  lra.
Qed.




(** [getRiskLevel] does not tell equal numbers apart. *)
Lemma getRiskLevel_comp x y :
  x == y -> ScoringEngine.getRiskLevel x = ScoringEngine.getRiskLevel y.
Proof.
  intros Hxy. unfold ScoringEngine.getRiskLevel, Qgeb.
  rewrite !(Qleb_comp _ _ (Qeq_refl _) _ _ Hxy). reflexivity.
Qed.

(** C2. [getRiskLevel] has the fixed breakpoints: on an integer score it
    answers high up to 499, medium from 500 to 749 and low from 750.
    [calculateScore], however, applies it to the score before rounding and
    stores the rounded score: the risk level of an assessment is
    [getRiskLevel] of the unrounded value. That is [getRiskLevel] of its
    [finalScore] whenever the unrounded value is an integer, but not in
    general: for the record with a repayment rate of 99.75 the unrounded
    score is 499.5, and the assessment has [finalScore] 500 and risk level
    high, although [getRiskLevel] of 500 is medium. *)
Theorem riskLevel_classifies_unrounded_score
    (now : Z) (m : WalletMetrics.t) (s : Z) :
  ScoringEngine.getRiskLevel (inject_Z s) =
    (if s <=? 499 then high else if s <=? 749 then medium else low) /\
  ScoringEngine.getRiskLevel 499 = high /\
  ScoringEngine.getRiskLevel 500 = medium /\
  ScoringEngine.getRiskLevel 749 = medium /\
  ScoringEngine.getRiskLevel 750 = low /\
  CreditAssessment.riskLevel (ScoringEngine.calculateScore now m) =
    ScoringEngine.getRiskLevel
      (Qmin 850
         (300 + (ScoringEngine.calculateTransactionBonus (WalletMetrics.transactionCount m)
                 + ScoringEngine.calculateAgeBonus (WalletMetrics.walletAgeMonths m)
                 + ScoringEngine.calculateDeFiBonus (WalletMetrics.defiScore m)
                 + ScoringEngine.calculateRepaymentBonus (WalletMetrics.repaymentRate m)))) /\
  (forall k : Z,
      unrounded_score m == inject_Z k ->
      CreditAssessment.riskLevel (ScoringEngine.calculateScore now m) =
      ScoringEngine.getRiskLevel
        (inject_Z (CreditAssessment.finalScore
                     (ScoringEngine.calculateScore now m)))) /\
  metrics_in_range fractional_rate /\
  ScoringEngine.validateMetrics fractional_rate = Returned tt /\
  CreditAssessment.finalScore (ScoringEngine.calculateScore now fractional_rate)
    = 500 /\
  CreditAssessment.riskLevel (ScoringEngine.calculateScore now fractional_rate)
    = high /\
  ScoringEngine.getRiskLevel
    (inject_Z (CreditAssessment.finalScore
                 (ScoringEngine.calculateScore now fractional_rate)))
    = medium.
Proof.
  split.
  { unfold ScoringEngine.getRiskLevel, RISK_LEVELS.LOW_minScore,
      RISK_LEVELS.MEDIUM_minScore.
    destruct (Qgeb_spec (inject_Z s) 750) as [H750|H750];
      destruct (Qgeb_spec (inject_Z s) 500) as [H500|H500];
      unfold Qle, Qlt in H750, H500; cbn in H750, H500;
      destruct (Z.leb_spec s 499), (Z.leb_spec s 749);
      try reflexivity; lia. }
  do 5 (split; [ reflexivity | ]).
  split.
  { intros k Hk. rewrite riskLevel_eq, finalScore_eq, score_of_eq.
    rewrite (Math_round_integer k _ Hk). apply getRiskLevel_comp. exact Hk. }
  split; [ unfold metrics_in_range; cbn; lra | ].
  repeat split.
Qed.

(** The record with the fractional repayment rate is what the aggregator
    builds from the replies of [fractional_rate_world], and the SDK's
    [fetchWalletMetrics] hands it on to scoring. *)
Example fractional_rate_is_fetched :
  DataAggregator.fetchWalletMetrics false fractional_rate_world "aleo1valid" []
    = (Returned fractional_rate,
       [LRUCache.mkEntry "aleo1valid" fractional_rate 1700000000000]) /\
  fst (CreditScoreSDK.fetchWalletMetrics false fractional_rate_world
         (sdk_for "aleo1valid")) = Returned fractional_rate.
Proof. split; vm_compute; reflexivity. Qed.

(** C4. For every valid metrics record, raising any one of
    [transactionCount], [walletAgeMonths], [defiScore] or [repaymentRate]
    by [d >= 0] while the other fields stay fixed does not lower the final
    score; every bonus is non-negative, and a field below its threshold
    contributes a bonus of 0. *)
Theorem finalScore_monotone_each_field (now : Z) (m : WalletMetrics.t) (d : Q) :
  metrics_in_range m ->
  (0 <= d)%Q ->
  let s := CreditAssessment.finalScore (ScoringEngine.calculateScore now m) in
  (s <= CreditAssessment.finalScore
          (ScoringEngine.calculateScore now
             (set_transactionCount (WalletMetrics.transactionCount m + d) m)) /\
   s <= CreditAssessment.finalScore
          (ScoringEngine.calculateScore now
             (set_walletAgeMonths (WalletMetrics.walletAgeMonths m + d) m)) /\
   s <= CreditAssessment.finalScore
          (ScoringEngine.calculateScore now
             (set_defiScore (WalletMetrics.defiScore m + d) m)) /\
   s <= CreditAssessment.finalScore
          (ScoringEngine.calculateScore now
             (set_repaymentRate (WalletMetrics.repaymentRate m + d) m))) /\
  (0 <= ScoringEngine.calculateTransactionBonus (WalletMetrics.transactionCount m) /\
   0 <= ScoringEngine.calculateAgeBonus (WalletMetrics.walletAgeMonths m) /\
   0 <= ScoringEngine.calculateDeFiBonus (WalletMetrics.defiScore m) /\
   0 <= ScoringEngine.calculateRepaymentBonus (WalletMetrics.repaymentRate m))%Q /\
  ((WalletMetrics.transactionCount m < 10 ->
    ScoringEngine.calculateTransactionBonus (WalletMetrics.transactionCount m) = 0) /\
   (WalletMetrics.walletAgeMonths m < 3 ->
    ScoringEngine.calculateAgeBonus (WalletMetrics.walletAgeMonths m) = 0) /\
   (WalletMetrics.defiScore m < 20 ->
    ScoringEngine.calculateDeFiBonus (WalletMetrics.defiScore m) = 0) /\
   (WalletMetrics.repaymentRate m < 75 ->
    ScoringEngine.calculateRepaymentBonus (WalletMetrics.repaymentRate m) = 0))%Q.
Proof.
  intros _ Hd s. subst s.
  split; [ | split ].
  - rewrite !finalScore_eq.
    repeat split; apply score_of_mono;
      cbn [set_transactionCount set_walletAgeMonths set_defiScore
           set_repaymentRate WalletMetrics.transactionCount
           WalletMetrics.walletAgeMonths WalletMetrics.defiScore
           WalletMetrics.repaymentRate]; lra.
  - pose proof (transactionBonus_bounds (WalletMetrics.transactionCount m)).
    pose proof (ageBonus_bounds (WalletMetrics.walletAgeMonths m)).
    pose proof (defiBonus_bounds (WalletMetrics.defiScore m)).
    pose proof (repaymentBonus_bounds (WalletMetrics.repaymentRate m)).
    repeat split; lra.
  - repeat split; intros Hlt; unfold_bonus; split_ltb;
      solve [ reflexivity | lra ].
Qed.

Lemma finalScore_monotone_each_field_witness :
  metrics_in_range mid_range /\ (0 <= 3)%Q /\
  CreditAssessment.finalScore (ScoringEngine.calculateScore 0 mid_range)
  <= CreditAssessment.finalScore
       (ScoringEngine.calculateScore 0
          (set_transactionCount
             (WalletMetrics.transactionCount mid_range + 3) mid_range)).
Proof.
  assert (Hr : metrics_in_range mid_range)
    by (unfold metrics_in_range; cbn; lra).
  assert (Hd : (0 <= 3)%Q) by lra.
  split; [ exact Hr | split; [ exact Hd | ] ].
  exact (proj1 (proj1 (finalScore_monotone_each_field 0 mid_range 3 Hr Hd))).
Defined.

(** The two other worked examples of the specification: no activity gives
    exactly 300 and high risk; the mid-range input gives bonuses 50, 60, 60
    and 10, a score of 480 and high risk. *)
Example zero_activity_assessment :
  CreditAssessment.finalScore (ScoringEngine.calculateScore 0 zero_activity) = 300 /\
  CreditAssessment.bonusPoints (ScoringEngine.calculateScore 0 zero_activity) == 0 /\
  CreditAssessment.riskLevel (ScoringEngine.calculateScore 0 zero_activity) = high.
Proof. repeat split. Qed.

Example mid_range_assessment :
  ScoringEngine.calculateTransactionBonus 20 == 50 /\
  ScoringEngine.calculateAgeBonus 6 == 60 /\
  ScoringEngine.calculateDeFiBonus 40 == 60 /\
  ScoringEngine.calculateRepaymentBonus 80 == 10 /\
  CreditAssessment.finalScore (ScoringEngine.calculateScore 0 mid_range) = 480 /\
  CreditAssessment.riskLevel (ScoringEngine.calculateScore 0 mid_range) = high.
Proof. repeat split. Qed.

(** C5. On the saturating input (50 transactions, 24 months, DeFi score
    80, repayment rate 100) the four bonuses are 100, 100, 100 and 50, 350
    in total; the final score is 300 + 350 = 650, which neither the cap of
    850 nor the rounding changes; and the risk level the code assigns is
    medium, not low. *)
Theorem saturating_assessment (now : Z) (address : string) (balance last : Q) :
  let m := saturating address balance last in
  let assessment := ScoringEngine.calculateScore now m in
  ScoringEngine.calculateTransactionBonus (WalletMetrics.transactionCount m)
    = 100%Q /\
  ScoringEngine.calculateAgeBonus (WalletMetrics.walletAgeMonths m) = 100%Q /\
  ScoringEngine.calculateDeFiBonus (WalletMetrics.defiScore m) = 100%Q /\
  ScoringEngine.calculateRepaymentBonus (WalletMetrics.repaymentRate m)
    = 50%Q /\
  CreditAssessment.bonusPoints assessment = 350%Q /\
  CreditAssessment.finalScore assessment = 650 /\
  inject_Z (CreditAssessment.finalScore assessment) == Qmin 850 (300 + 350) /\
  CreditAssessment.riskLevel assessment = medium /\
  CreditAssessment.riskLevel assessment <> low.
Proof. cbv zeta. repeat split. discriminate. Qed.

(** The saturating input is not classified as low risk. *)
Lemma saturating_riskLevel_not_low :
  CreditAssessment.riskLevel
    (ScoringEngine.calculateScore 0 (saturating "aleo1perfect" 100000 0))
  <> low.
Proof. cbv. discriminate. Qed.

(** [validateMetrics] accepts exactly the records with an "aleo1" address
    whose numeric fields are in range. *)
Lemma validateMetrics_Returned_iff m :
  ScoringEngine.validateMetrics m = Returned tt <->
  startsWith (WalletMetrics.address m) "aleo1" = true /\ metrics_in_range m.
Proof.
  unfold ScoringEngine.validateMetrics, metrics_in_range.
  assert (Hf : startsWith (WalletMetrics.address m) "aleo1" = true ->
               falsy_string (WalletMetrics.address m) = false).
  { destruct (WalletMetrics.address m); [ discriminate | reflexivity ]. }
  destruct (startsWith (WalletMetrics.address m) "aleo1") eqn:Hp.
  - rewrite (Hf eq_refl). cbn [negb orb].
    destruct (Qltb_spec (WalletMetrics.transactionCount m) 0);
      [ split; [ discriminate | lra ] | ].
    destruct (Qltb_spec (WalletMetrics.walletAgeMonths m) 0);
      [ split; [ discriminate | lra ] | ].
    destruct (Qltb_spec (WalletMetrics.defiScore m) 0);
      [ split; [ discriminate | lra ] | ].
    destruct (Qgtb_spec (WalletMetrics.defiScore m) 100);
      [ split; [ discriminate | lra ] | ].
    destruct (Qltb_spec (WalletMetrics.repaymentRate m) 0);
      [ split; [ discriminate | lra ] | ].
    destruct (Qgtb_spec (WalletMetrics.repaymentRate m) 100);
      [ split; [ discriminate | lra ] | ].
    destruct (Qltb_spec (WalletMetrics.tokenBalance m) 0);
      [ split; [ discriminate | lra ] | ].
    cbn. split; [ intros _; split; [ reflexivity | lra ] | reflexivity ].
  - rewrite orb_true_r. split; [ discriminate | intros [H _]; discriminate ].
Qed.

(** Whatever [validateMetrics] throws is a plain [Error] with one of its
    six messages. *)
Lemma validateMetrics_throws_listed m e :
  ScoringEngine.validateMetrics m = Thrown e ->
  exists message, e = Error message /\ In message validation_messages.
Proof.
  unfold ScoringEngine.validateMetrics, validation_messages.
  repeat match goal with
         | |- context [if ?b then _ else _] => destruct b
         end; intros H; inversion H; eexists; (split; [ reflexivity | ]);
    cbn; tauto.
Qed.

Lemma validateMetrics_throws_Error m e :
  ScoringEngine.validateMetrics m = Thrown e ->
  exists message, e = Error message.
Proof.
  intros H. destruct (validateMetrics_throws_listed m e H) as (message & He & _).
  exists message. exact He.
Qed.

(** C3, as the code has it. The SDK runs [validateMetrics] inside
    [fetchWalletMetrics], on the record the aggregator hands over: when a
    field of that record is out of its range the call throws the plain
    [Error] of [validateMetrics], with the message of the failing check, and
    no record reaches scoring; a record that passes is returned as it is.
    Nothing is clamped. Any record with a field out of range is rejected by
    [validateMetrics] in this way. *)
Theorem validateMetrics_rejects_out_of_range
    (mock : bool) (w : world) (sdk : CreditScoreSDK.t) (address : string)
    (m : WalletMetrics.t) (c : DataAggregator.cache) :
  CreditScoreSDK.ensureInitialized sdk = Returned address ->
  DataAggregator.fetchWalletMetrics mock w address (CreditScoreSDK.cache sdk) =
    (Returned m, c) ->
  (~ metrics_in_range m ->
   exists message,
     In message validation_messages /\
     ScoringEngine.validateMetrics m = Thrown (Error message) /\
     fst (CreditScoreSDK.fetchWalletMetrics mock w sdk) =
       Thrown (Error message)) /\
  (ScoringEngine.validateMetrics m = Returned tt ->
   fst (CreditScoreSDK.fetchWalletMetrics mock w sdk) = Returned m) /\
  (forall m' : WalletMetrics.t,
      ~ metrics_in_range m' ->
      exists message,
        In message validation_messages /\
        ScoringEngine.validateMetrics m' = Thrown (Error message)).
Proof.
  intros Hinit Hfetch.
  assert (Hreject : forall m' : WalletMetrics.t,
             ~ metrics_in_range m' ->
             exists message,
               In message validation_messages /\
               ScoringEngine.validateMetrics m' = Thrown (Error message)).
  { intros m' Hbad.
    destruct (ScoringEngine.validateMetrics m') as [[]|e] eqn:Hv.
    - apply validateMetrics_Returned_iff in Hv. tauto.
    - destruct (validateMetrics_throws_listed _ _ Hv) as (msg & -> & Hin).
      exists msg. split; [ exact Hin | reflexivity ]. }
  assert (Hsdk : fst (CreditScoreSDK.fetchWalletMetrics mock w sdk) =
                 (ScoringEngine.validateMetrics m ;;; Returned m)).
  { unfold CreditScoreSDK.fetchWalletMetrics. rewrite Hinit, Hfetch.
    reflexivity. }
  split; [ | split; [ | exact Hreject ] ].
  - intros Hbad. destruct (Hreject m Hbad) as (msg & Hin & Hv).
    exists msg. split; [ exact Hin | ]. split; [ exact Hv | ].
    rewrite Hsdk, Hv. reflexivity.
  - intros Hv. rewrite Hsdk, Hv. reflexivity.
Qed.

Lemma validateMetrics_rejects_out_of_range_witness :
  CreditScoreSDK.ensureInitialized (sdk_for "aleo1valid") =
    Returned "aleo1valid" /\
  DataAggregator.fetchWalletMetrics false negative_count_world "aleo1valid"
    (CreditScoreSDK.cache (sdk_for "aleo1valid")) =
    (Returned negative_count,
     [LRUCache.mkEntry "aleo1valid" negative_count 12960000001]) /\
  ~ metrics_in_range negative_count /\
  exists message,
    In message validation_messages /\
    ScoringEngine.validateMetrics negative_count = Thrown (Error message) /\
    fst (CreditScoreSDK.fetchWalletMetrics false negative_count_world
           (sdk_for "aleo1valid")) = Thrown (Error message).
Proof.
  assert (Hfetch :
    DataAggregator.fetchWalletMetrics false negative_count_world "aleo1valid"
      (CreditScoreSDK.cache (sdk_for "aleo1valid")) =
    (Returned negative_count,
     [LRUCache.mkEntry "aleo1valid" negative_count 12960000001]))
    by (vm_compute; reflexivity).
  assert (Hbad : ~ metrics_in_range negative_count)
    by (unfold metrics_in_range; cbn; lra).
  split; [ reflexivity | ].
  split; [ exact Hfetch | ].
  split; [ exact Hbad | ].
  exact (proj1 (validateMetrics_rejects_out_of_range false negative_count_world
                  (sdk_for "aleo1valid") "aleo1valid" negative_count _
                  eq_refl Hfetch) Hbad).
Defined.

(** The record with the negative count is what [DataAggregator] returns in
    that world; the SDK's [fetchWalletMetrics] turns it into the validation
    error, and the whole flow stops there, before any scoring, with the
    error wrapped as FLOW_ERROR. *)
Example negative_count_is_fetched_and_rejected :
  fst (DataAggregator.fetchWalletMetrics false negative_count_world
         "aleo1valid" []) = Returned negative_count /\
  fst (CreditScoreSDK.fetchWalletMetrics false negative_count_world
         (sdk_for "aleo1valid")) =
    Thrown (Error "Transaction count cannot be negative") /\
  @CreditScoreSDK.issueCreditFlow stand_in_digest false negative_count_world
    12960000002 (fun _ _ => x00) offline (sdk_for "aleo1valid")
    "APrivateKey1test" =
    Some (Thrown (SDKError "Credit issuance flow failed" "FLOW_ERROR")).
Proof. repeat split; vm_compute; reflexivity. Qed.

(** C3, as the specification words it: [calculateScore] does not fail on
    an out-of-range record. For a transaction count of -5, which
    [validateMetrics] rejects, it returns an assessment with score 450. *)
Lemma calculateScore_accepts_negative_count :
  ~ metrics_in_range negative_count /\
  ScoringEngine.validateMetrics negative_count =
    Thrown (Error "Transaction count cannot be negative") /\
  ScoringEngine.calculateScore 0 negative_count =
    {| CreditAssessment.address := "aleo1valid";
       CreditAssessment.metrics := negative_count;
       CreditAssessment.baseScore := 300;
       CreditAssessment.bonusPoints := 0 + 50 + 90 + 10;
       CreditAssessment.finalScore := 450;
       CreditAssessment.riskLevel := high;
       CreditAssessment.timestamp := 0 |}.
Proof.
  split; [ unfold metrics_in_range; cbn; lra | split; reflexivity ].
Qed.

(** ** BlockchainAdapter: the confirmation polling loop *)

Lemma rounds_S j :
  rounds (S j) = (rounds j ++ [EvQuery j; EvSleep TX_POLLING.INTERVAL])%list.
Proof.
  unfold rounds. rewrite seq_S, flat_map_app. cbn. reflexivity.
Qed.

Lemma sleep_after_query j :
  BlockchainAdapter.sleep_and_count TX_POLLING.INTERVAL
    (BlockchainAdapter.note_query (pass_start j)) = pass_start (S j).
Proof.
  unfold BlockchainAdapter.sleep_and_count, BlockchainAdapter.note_query,
    pass_start. cbn [BlockchainAdapter.attempts BlockchainAdapter.queries
                     BlockchainAdapter.trace].
  rewrite rounds_S, <- app_assoc. cbn [app].
  f_equal. lia.
Qed.

Lemma poll_loop_from query n :
  forall j fuel,
    (j + n = 20)%nat -> (n < fuel)%nat ->
    exists r st,
      BlockchainAdapter.poll_loop query fuel (pass_start j) = Some (r, st) /\
      r = poll_answer query n j /\
      BlockchainAdapter.queries st = poll_count query n j /\
      (BlockchainAdapter.queries st <= 20)%nat /\
      paced st.
Proof.
  induction n as [|n IH]; intros j fuel Hj Hfuel.
  - destruct fuel as [|fuel]; [ lia | ].
    assert (j = 20%nat) by lia. subst j.
    exists (Thrown ConfirmationTimeoutError), (pass_start 20).
    repeat split; try reflexivity. left. reflexivity.
  - destruct fuel as [|fuel]; [ lia | ].
    cbn [BlockchainAdapter.poll_loop].
    assert (Hlt : (BlockchainAdapter.attempts (pass_start j)
                   <? BlockchainAdapter.maxAttempts) = true).
    { apply Z.ltb_lt. cbn. unfold BlockchainAdapter.maxAttempts,
        TX_POLLING.MAX_ATTEMPTS. lia. }
    rewrite Hlt.
    assert (Hcont :
      exists r st,
        BlockchainAdapter.poll_loop query fuel (pass_start (S j)) = Some (r, st) /\
        r = poll_answer query n (S j) /\
        BlockchainAdapter.queries st = poll_count query n (S j) /\
        (BlockchainAdapter.queries st <= 20)%nat /\ paced st).
    { apply IH; lia. }
    assert (Hcatch :
      forall e,
        BlockchainAdapter.catch_block
          (BlockchainAdapter.note_query (pass_start j)) e =
        if (n =? 0)%nat then Thrown ConfirmationTimeoutError
        else Returned (BlockchainAdapter.Continue (pass_start (S j)))).
    { intros e. unfold BlockchainAdapter.catch_block.
      rewrite sleep_after_query.
      cbn [BlockchainAdapter.attempts BlockchainAdapter.note_query pass_start].
      unfold BlockchainAdapter.maxAttempts, TX_POLLING.MAX_ATTEMPTS.
      destruct (Z.geb_spec (Z.of_nat j) (20 - 1)), (Nat.eqb_spec n 0);
        try reflexivity; lia. }
    assert (Hlast :
      n = 0%nat ->
      exists r st,
        Some (@Thrown AleoTransaction.t ConfirmationTimeoutError,
              BlockchainAdapter.note_query (pass_start j)) = Some (r, st) /\
        r = Thrown ConfirmationTimeoutError /\
        BlockchainAdapter.queries st = (j + 1)%nat /\
        (BlockchainAdapter.queries st <= 20)%nat /\ paced st).
    { intros ->. eexists _, _. split; [ reflexivity | ].
      cbn [BlockchainAdapter.queries BlockchainAdapter.note_query pass_start].
      repeat split; try lia. right. reflexivity. }
    unfold poll_answer, poll_count in *.
    cbn [first_confirmed BlockchainAdapter.queries pass_start].
    unfold BlockchainAdapter.try_block.
    destruct (query j) as [tx|e] eqn:Hq; cbn [bind try_catch].
    + destruct (AleoTransaction.status tx) eqn:Hs; cbn [try_catch].
      * rewrite sleep_after_query.
        destruct Hcont as (r & st & Hrun & Hr & Hc & Hle & Hp).
        exists r, st. replace (j + S n)%nat with (S j + n)%nat by lia. auto.
      * eexists _, _. split; [ reflexivity | ].
        cbn [BlockchainAdapter.queries BlockchainAdapter.note_query pass_start].
        repeat split; try lia. right. reflexivity.
      * rewrite Hcatch. destruct (Nat.eqb_spec n 0) as [Hn|Hn].
        -- destruct (Hlast Hn) as (r & st & Hrun & Hr & Hc & Hle & Hp).
           exists r, st. subst n. cbn [first_confirmed].
           repeat split; auto; lia.
        -- destruct Hcont as (r & st & Hrun & Hr & Hc & Hle & Hp).
           exists r, st.
           replace (j + S n)%nat with (S j + n)%nat by lia. auto.
    + rewrite Hcatch. destruct (Nat.eqb_spec n 0) as [Hn|Hn].
      * destruct (Hlast Hn) as (r & st & Hrun & Hr & Hc & Hle & Hp).
        exists r, st. subst n. cbn [first_confirmed].
        repeat split; auto; lia.
      * destruct Hcont as (r & st & Hrun & Hr & Hc & Hle & Hp).
        exists r, st.
        replace (j + S n)%nat with (S j + n)%nat by lia. auto.
Qed.

(** More fuel than needed changes nothing. *)
Lemma poll_loop_more_fuel query fuel :
  forall st x,
    BlockchainAdapter.poll_loop query fuel st = Some x ->
    BlockchainAdapter.poll_loop query (S fuel) st = Some x.
Proof.
  induction fuel as [|fuel IH]; intros st x Hrun; [ discriminate | ].
  cbn [BlockchainAdapter.poll_loop] in Hrun.
  change (BlockchainAdapter.poll_loop query (S (S fuel)) st) with
    (if BlockchainAdapter.attempts st <? BlockchainAdapter.maxAttempts then
       let st1 := BlockchainAdapter.note_query st in
       match try_catch
               (BlockchainAdapter.try_block query st1 (BlockchainAdapter.queries st))
               (BlockchainAdapter.catch_block st1) with
       | Returned (BlockchainAdapter.Return tx) => Some (Returned tx, st1)
       | Returned (BlockchainAdapter.Continue st2) =>
           BlockchainAdapter.poll_loop query (S fuel) st2
       | Thrown e => Some (Thrown e, st1)
       end
     else Some (Thrown (TransactionError "Transaction confirmation timeout"), st)).
  destruct (BlockchainAdapter.attempts st <? BlockchainAdapter.maxAttempts);
    [ | exact Hrun ].
  cbv zeta in *.
  destruct (try_catch _ _) as [[tx|st2]|e]; auto.
Qed.

Lemma poll_loop_extra_fuel query extra :
  forall fuel st x,
    BlockchainAdapter.poll_loop query fuel st = Some x ->
    BlockchainAdapter.poll_loop query (extra + fuel) st = Some x.
Proof.
  induction extra as [|extra IH]; intros fuel st x Hrun; [ exact Hrun | ].
  cbn [Nat.add]. apply poll_loop_more_fuel. apply IH. exact Hrun.
Qed.

(** The call gives the loop twenty-one passes from the initial state. *)
Lemma waitForConfirmation_eq query :
  BlockchainAdapter.waitForConfirmation query =
  BlockchainAdapter.poll_loop query 21 (pass_start 0).
Proof. reflexivity. Qed.

Lemma rounds_head n : hd_error (rounds (S n)) = Some (EvQuery 0).
Proof. reflexivity. Qed.

Lemma paced_head st :
  (1 <= BlockchainAdapter.queries st)%nat ->
  paced st ->
  hd_error (BlockchainAdapter.trace st) = Some (EvQuery 0).
Proof.
  intros Hq [Ht|Ht]; rewrite Ht.
  - destruct (BlockchainAdapter.queries st); [ lia | apply rounds_head ].
  - destruct (BlockchainAdapter.queries st) as [|[|q]]; [ lia | reflexivity | ].
    cbn [Nat.pred]. reflexivity.
Qed.

Lemma poll_count_pos query n j : (1 <= j + n)%nat -> (1 <= poll_count query n j)%nat.
Proof.
  unfold poll_count. destruct (first_confirmed query n j) as [[k tx]|]; lia.
Qed.

(** [first_confirmed] finds a poll that returned a confirmed transaction,
    and no earlier poll did. *)
Lemma first_confirmed_Some query n :
  forall j k tx,
    first_confirmed query n j = Some (k, tx) ->
    (j <= k < j + n)%nat /\
    query k = Returned tx /\
    AleoTransaction.status tx = confirmed /\
    forall i tx', (j <= i < k)%nat -> query i = Returned tx' ->
                  AleoTransaction.status tx' <> confirmed.
Proof.
  induction n as [|n IH]; intros j k tx Hf; [ discriminate | ].
  cbn [first_confirmed] in Hf.
  assert (Hnext : first_confirmed query n (S j) = Some (k, tx) ->
                  (forall tx', query j = Returned tx' ->
                               AleoTransaction.status tx' <> confirmed) ->
                  (j <= k < j + S n)%nat /\
                  query k = Returned tx /\
                  AleoTransaction.status tx = confirmed /\
                  forall i tx', (j <= i < k)%nat -> query i = Returned tx' ->
                                AleoTransaction.status tx' <> confirmed).
  { intros Hrec Hj. destruct (IH (S j) k tx Hrec) as (Hk & Hq & Hs & Hbefore).
    repeat split; try lia; auto.
    intros i tx' Hi Hqi. destruct (Nat.eq_dec i j) as [->|Hne].
    - apply Hj. exact Hqi.
    - apply (Hbefore i tx'); [ lia | exact Hqi ]. }
  destruct (query j) as [tx0|e] eqn:Hq.
  - destruct (AleoTransaction.status tx0) eqn:Hs.
    + apply Hnext; [ exact Hf | ]. intros tx' Heq. inversion Heq; subst.
      rewrite Hs. discriminate.
    + inversion Hf; subst. repeat split; try lia; auto.
    + apply Hnext; [ exact Hf | ]. intros tx' Heq. inversion Heq; subst.
      rewrite Hs. discriminate.
  - apply Hnext; [ exact Hf | ]. intros tx' Heq. discriminate.
Qed.

(** [first_confirmed] finds nothing only if no poll in the range returned a
    confirmed transaction. *)
Lemma first_confirmed_None query n :
  forall j,
    first_confirmed query n j = None ->
    forall i tx, (j <= i < j + n)%nat -> query i = Returned tx ->
                 AleoTransaction.status tx <> confirmed.
Proof.
  induction n as [|n IH]; intros j Hf i tx Hi Hq; [ lia | ].
  cbn [first_confirmed] in Hf.
  destruct (Nat.eq_dec i j) as [->|Hne].
  - rewrite Hq in Hf. destruct (AleoTransaction.status tx);
      [ discriminate | discriminate | discriminate ].
  - apply (IH (S j)) with (i := i); [ | lia | exact Hq ].
    destruct (query j) as [tx0|e]; [ | exact Hf ].
    destruct (AleoTransaction.status tx0); [ exact Hf | discriminate | exact Hf ].
Qed.

(** No poll in the range reports a confirmed transaction: nothing is
    found. *)
Lemma first_confirmed_none query n :
  forall j,
    (forall i, (j <= i < j + n)%nat -> first_confirmed query 1 i = None) ->
    first_confirmed query n j = None.
Proof.
  induction n as [|n IH]; intros j Hall; [ reflexivity | ].
  cbn [first_confirmed].
  assert (Hj : first_confirmed query 1 j = None) by (apply Hall; lia).
  cbn [first_confirmed] in Hj.
  assert (Hrec : first_confirmed query n (S j) = None).
  { apply IH. intros i Hi. apply Hall. lia. }
  destruct (query j) as [tx|e]; [ | exact Hrec ].
  destruct (AleoTransaction.status tx); [ exact Hrec | discriminate | exact Hrec ].
Qed.

(** The first poll that reports a confirmed transaction is found. *)
Lemma first_confirmed_found query n :
  forall j k tx,
    (j <= k < j + n)%nat ->
    (forall i, (j <= i < k)%nat ->
               first_confirmed query 1 i = None) ->
    query k = Returned tx ->
    AleoTransaction.status tx = confirmed ->
    first_confirmed query n j = Some (k, tx).
Proof.
  induction n as [|n IH]; intros j k tx Hk Hbefore Hq Hs; [ lia | ].
  cbn [first_confirmed].
  destruct (Nat.eq_dec j k) as [->|Hne].
  - rewrite Hq, Hs. reflexivity.
  - assert (Hj : first_confirmed query 1 j = None) by (apply Hbefore; lia).
    cbn [first_confirmed] in Hj.
    assert (Hrec : first_confirmed query n (S j) = Some (k, tx)).
    { apply IH; auto; try lia. intros i Hi. apply Hbefore. lia. }
    destruct (query j) as [tx0|e]; [ | exact Hrec ].
    destruct (AleoTransaction.status tx0); [ exact Hrec | discriminate | exact Hrec ].
Qed.

Lemma poll_answer_found query n j k tx :
  first_confirmed query n j = Some (k, tx) ->
  poll_answer query n j = Returned tx.
Proof. intros Hf. unfold poll_answer. rewrite Hf. reflexivity. Qed.

Lemma poll_count_found query n j k tx :
  first_confirmed query n j = Some (k, tx) ->
  poll_count query n j = S k.
Proof. intros Hf. unfold poll_count. rewrite Hf. reflexivity. Qed.

Lemma poll_answer_none query n j :
  first_confirmed query n j = None ->
  poll_answer query n j = Thrown ConfirmationTimeoutError.
Proof. intros Hf. unfold poll_answer. rewrite Hf. reflexivity. Qed.

Lemma poll_count_none query n j :
  first_confirmed query n j = None ->
  poll_count query n j = (j + n)%nat.
Proof. intros Hf. unfold poll_count. rewrite Hf. reflexivity. Qed.

Lemma poll_answer_throws query n j e :
  poll_answer query n j = Thrown e -> e = ConfirmationTimeoutError.
Proof.
  unfold poll_answer.
  destruct (first_confirmed query n j) as [[k tx]|]; intros H; inversion H.
  reflexivity.
Qed.

(** A status reply that is there and not confirmed lets the loop go on. *)
Lemma unconfirmed_reply_passes l txId i :
  (exists tx, transaction_reply l i = Some tx /\
              AleoTransaction.status tx <> confirmed) ->
  first_confirmed (BlockchainAdapter.queryTransaction l txId) 1 i = None.
Proof.
  intros (tx & Htx & Hs). cbn [first_confirmed].
  unfold BlockchainAdapter.queryTransaction. rewrite Htx.
  destruct (AleoTransaction.status tx);
    [ reflexivity | contradiction | reflexivity ].
Qed.

(** C8, as the code has it. [waitForConfirmation] always ends, after at
    most 20 status queries (for any amount of fuel above 20), with exactly
    one sleep of 500 ms between two queries. A query whose reply is there
    and not confirmed uses up an attempt; after 20 of them the call throws
    the confirmation-timeout error, and it throws nothing else. A query
    whose reply is confirmed ends the wait with that transaction. A status
    request that fails does not use up an attempt: [queryTransaction]
    answers it with a mock confirmed transaction, which ends the wait in
    the same way. *)
Theorem waitForConfirmation_bounded_polling
    (l : ledger) (txId : string) (extra : nat) :
  let query := BlockchainAdapter.queryTransaction l txId in
  let unconfirmed_before (k : nat) :=
    forall i, (i < k)%nat ->
              exists tx, transaction_reply l i = Some tx /\
                         AleoTransaction.status tx <> confirmed in
  exists r st,
    BlockchainAdapter.waitForConfirmation query = Some (r, st) /\
    BlockchainAdapter.waitForConfirmation_fuel query (extra + 21) = Some (r, st) /\
    (BlockchainAdapter.queries st <= 20)%nat /\
    TX_POLLING.MAX_ATTEMPTS = 20 /\
    TX_POLLING.INTERVAL = 500 /\
    (BlockchainAdapter.trace st = rounds (BlockchainAdapter.queries st) \/
     BlockchainAdapter.trace st =
       (rounds (Nat.pred (BlockchainAdapter.queries st))
          ++ [EvQuery (Nat.pred (BlockchainAdapter.queries st))])%list) /\
    r = poll_answer query 20 0 /\
    BlockchainAdapter.queries st = poll_count query 20 0 /\
    (unconfirmed_before 20%nat ->
     r = Thrown ConfirmationTimeoutError /\
     BlockchainAdapter.queries st = 20%nat) /\
    (forall k tx,
        (k < 20)%nat -> unconfirmed_before k ->
        transaction_reply l k = Some tx ->
        AleoTransaction.status tx = confirmed ->
        r = Returned tx /\ BlockchainAdapter.queries st = S k) /\
    (forall k,
        (k < 20)%nat -> unconfirmed_before k ->
        transaction_reply l k = None ->
        r = Returned
              {| AleoTransaction.id := txId;
                 AleoTransaction.status := confirmed;
                 AleoTransaction.blockHeight := Some (random_block l k);
                 AleoTransaction.timestamp := Some (clock l k) |} /\
        BlockchainAdapter.queries st = S k) /\
    (forall e, r = Thrown e -> e = ConfirmationTimeoutError).
Proof.
  intros query unconfirmed_before.
  destruct (poll_loop_from query 20 0 21) as (r & st & Hrun & Hr & Hc & Hle & Hp);
    try lia.
  exists r, st.
  split; [ exact Hrun | ].
  split; [ apply (poll_loop_extra_fuel query extra 21); exact Hrun | ].
  split; [ exact Hle | ].
  split; [ reflexivity | ].
  split; [ reflexivity | ].
  split; [ exact Hp | ].
  split; [ exact Hr | ].
  split; [ exact Hc | ].
  assert (Hfound : forall k tx,
             (k < 20)%nat -> unconfirmed_before k ->
             query k = Returned tx ->
             AleoTransaction.status tx = confirmed ->
             r = Returned tx /\ BlockchainAdapter.queries st = S k).
  { intros k tx Hk Hbefore Hq Hs.
    assert (Hf : first_confirmed query 20 0 = Some (k, tx)).
    { apply first_confirmed_found; try lia; auto.
      intros i Hi. apply unconfirmed_reply_passes. apply Hbefore. lia. }
    rewrite Hr, Hc.
    split; [ exact (poll_answer_found _ _ _ _ _ Hf)
           | exact (poll_count_found _ _ _ _ _ Hf) ]. }
  split; [ | split; [ | split ] ].
  - intros Hall.
    assert (Hf : first_confirmed query 20 0 = None).
    { apply first_confirmed_none. intros i Hi.
      apply unconfirmed_reply_passes. apply Hall. lia. }
    rewrite Hr, Hc.
    split; [ exact (poll_answer_none _ _ _ Hf)
           | exact (poll_count_none _ _ _ Hf) ].
  - intros k tx Hk Hbefore Hreply Hs.
    apply Hfound; auto.
    unfold query, BlockchainAdapter.queryTransaction. rewrite Hreply.
    reflexivity.
  - intros k Hk Hbefore Hreply.
    apply Hfound; auto.
    unfold query, BlockchainAdapter.queryTransaction. rewrite Hreply.
    reflexivity.
  - intros e He. rewrite Hr in He.
    exact (poll_answer_throws _ _ _ _ He).
Qed.

(** C8, as the specification words it: a poll that errors does not count
    toward the ceiling. On a network where every status request fails the
    wait ends after the first query, with a confirmed transaction and
    without a timeout. *)
Lemma waitForConfirmation_failed_request_ends_wait :
  (forall k, transaction_reply offline k = None) /\
  BlockchainAdapter.waitForConfirmation
    (BlockchainAdapter.queryTransaction offline "at1x") =
  Some (Returned {| AleoTransaction.id := "at1x";
                    AleoTransaction.status := confirmed;
                    AleoTransaction.blockHeight := Some 0;
                    AleoTransaction.timestamp := Some 1700000000000 |},
        BlockchainAdapter.mkPoll 0 1 [EvQuery 0]).
Proof. split; [ reflexivity | vm_compute; reflexivity ]. Qed.

(** A transaction that stays pending: twenty rounds, then the timeout. *)
Example waitForConfirmation_all_pending :
  BlockchainAdapter.waitForConfirmation
    (fun _ => Returned (reported "at1x" pending)) =
  Some (Thrown ConfirmationTimeoutError, pass_start 20).
Proof. vm_compute. reflexivity. Qed.

(** The loop on its own, were its query to throw every time:
    the timeout again, and no twenty-first poll. *)
Example waitForConfirmation_all_throw :
  BlockchainAdapter.waitForConfirmation
    (fun _ => Thrown (Error "network down")) =
  Some (Thrown ConfirmationTimeoutError,
        BlockchainAdapter.mkPoll 19 20 (rounds 19 ++ [EvQuery 19%nat])%list).
Proof. vm_compute. reflexivity. Qed.

(** C6. When every status poll reports the transaction failed,
    [waitForConfirmation] polls twenty times and throws the
    confirmation-timeout error, and [submitProof] reports that message;
    when the first poll reports failed and the next confirmed, the
    transaction is returned. The error "Transaction failed on-chain" is
    thrown inside the [try] block and caught by the loop's own [catch]: for
    no behaviour of the query does it leave [waitForConfirmation]. *)
Theorem waitForConfirmation_failed_status_times_out :
  BlockchainAdapter.waitForConfirmation
    (fun _ => Returned (reported "at1x" failed)) =
    Some (Thrown ConfirmationTimeoutError,
          BlockchainAdapter.mkPoll 19 20 (rounds 19 ++ [EvQuery 19%nat])%list) /\
  ConfirmationTimeoutError <> OnChainExecutionError /\
  BlockchainAdapter.waitForConfirmation
    (fun k => Returned (reported "at1x" (if (k =? 0)%nat then failed else confirmed))) =
    Some (Returned (reported "at1x" confirmed),
          BlockchainAdapter.mkPoll 1 2 (rounds 1 ++ [EvQuery 1%nat])%list) /\
  option_map fst
    (BlockchainAdapter.submitProof "credit_score.aleo" always_failed
       (proof_with_hash "ab12") "aleo1test123" "APrivateKey1test") =
    Some {| CreditIssuanceResult.success := false;
            CreditIssuanceResult.transactionId := EmptyString;
            CreditIssuanceResult.creditRecord := None;
            CreditIssuanceResult.error :=
              Some "Transaction confirmation timeout" |} /\
  forall query r st,
    BlockchainAdapter.waitForConfirmation query = Some (r, st) ->
    r <> Thrown OnChainExecutionError.
Proof.
  split; [ vm_compute; reflexivity | ].
  split; [ discriminate | ].
  split; [ vm_compute; reflexivity | ].
  split; [ vm_compute; reflexivity | ].
  intros query r st Hrun.
  destruct (poll_loop_from query 20 0 21) as (r' & st' & Hrun' & Hr & _);
    try lia.
  unfold BlockchainAdapter.waitForConfirmation,
    BlockchainAdapter.waitForConfirmation_fuel in Hrun.
  change (BlockchainAdapter.poll_loop query 21 (pass_start 0) = Some (r, st))
    in Hrun.
  rewrite Hrun' in Hrun. inversion Hrun; subst.
  unfold poll_answer. destruct (first_confirmed query 20 0) as [[k tx]|];
    discriminate.
Qed.

(** ** BlockchainAdapter: submission *)

Lemma bytesToHex_length bytes :
  String.length (bytesToHex bytes) = (2 * List.length bytes)%nat.
Proof.
  induction bytes as [|b rest IH]; [ reflexivity | ].
  cbn [bytesToHex String.length List.length]. rewrite IH. lia.
Qed.

Lemma submission_result_shape l txId user :
  let result := submission_result l txId user in
  CreditIssuanceResult.transactionId result =
    (if CreditIssuanceResult.success result then txId else EmptyString) /\
  CreditIssuanceResult.error result =
    (if CreditIssuanceResult.success result then None
     else Some "Transaction confirmation timeout").
Proof.
  unfold submission_result, poll_answer.
  destruct (first_confirmed (BlockchainAdapter.queryTransaction l txId) 20 0)
    as [[k tx]|]; split; reflexivity.
Qed.

(** Once a transaction id is in hand, [submitProof] polls and answers
    according to the polling result. *)
Lemma submitProof_polls contract l proof h user key :
  ZKProof.proofHash proof = Some h ->
  let txId := match broadcast_reply l with
              | Some transaction_id => transaction_id
              | None => BlockchainAdapter.generateMockTxId l
              end in
  exists tr,
    BlockchainAdapter.submitProof contract l proof user key =
      Some (submission_result l txId user, tr) /\
    hd_error tr = Some (EvQuery 0).
Proof.
  intros Hh txId.
  unfold BlockchainAdapter.submitProof, BlockchainAdapter.buildTransaction,
    BlockchainAdapter.broadcastTransaction.
  rewrite Hh. cbn [bind].
  assert (Hb : match broadcast_reply l with
               | Some transaction_id => Returned transaction_id
               | None => Returned (BlockchainAdapter.generateMockTxId l)
               end = Returned txId).
  { subst txId. destruct (broadcast_reply l); reflexivity. }
  rewrite Hb.
  destruct (poll_loop_from (BlockchainAdapter.queryTransaction l txId) 20 0 21)
    as (r & st & Hrun & Hr & Hc & Hle & Hp); try lia.
  rewrite waitForConfirmation_eq, Hrun.
  assert (Hhd : hd_error (BlockchainAdapter.trace st) = Some (EvQuery 0)).
  { apply paced_head; [ | exact Hp ]. rewrite Hc. apply poll_count_pos. lia. }
  unfold submission_result. rewrite <- Hr.
  destruct r as [tx|e]; eexists; split; try reflexivity; exact Hhd.
Qed.

Lemma generateMockTxId_length l :
  String.length (BlockchainAdapter.generateMockTxId l) = 67%nat.
Proof.
  unfold BlockchainAdapter.generateMockTxId. cbn [append String.length].
  rewrite bytesToHex_length. unfold getRandomValues32.
  rewrite length_map, length_seq. reflexivity.
Qed.

(** C7, as the code has it. When the broadcast request fails,
    [broadcastTransaction] answers with a mock transaction id and
    [submitProof] goes on to poll for that id: the first thing it does
    after the failed broadcast is a status query. It then either reports
    success with the mock id as transaction id, or reports failure with an
    empty transaction id and the confirmation-timeout message; no error of
    the broadcast step reaches the caller. The mock id is "at1" followed by
    64 hex digits. *)
Theorem submitProof_after_failed_broadcast
    (contract : string) (l : ledger) (proof : ZKProof.t)
    (h userAddress privateKey : string) :
  broadcast_reply l = None ->
  ZKProof.proofHash proof = Some h ->
  exists result tr,
    BlockchainAdapter.submitProof contract l proof userAddress privateKey =
      Some (result, tr) /\
    hd_error tr = Some (EvQuery 0) /\
    result =
      submission_result l (BlockchainAdapter.generateMockTxId l) userAddress /\
    CreditIssuanceResult.transactionId result =
      (if CreditIssuanceResult.success result
       then BlockchainAdapter.generateMockTxId l else EmptyString) /\
    CreditIssuanceResult.error result =
      (if CreditIssuanceResult.success result then None
       else Some "Transaction confirmation timeout") /\
    startsWith (BlockchainAdapter.generateMockTxId l) "at1" = true /\
    String.length (BlockchainAdapter.generateMockTxId l) = 67%nat.
Proof.
  intros Hb Hh.
  destruct (submitProof_polls contract l proof h userAddress privateKey Hh)
    as (tr & Hrun & Hhd).
  rewrite Hb in Hrun.
  exists (submission_result l (BlockchainAdapter.generateMockTxId l) userAddress), tr.
  split; [ exact Hrun | ].
  split; [ exact Hhd | ].
  split; [ reflexivity | ].
  destruct (submission_result_shape l (BlockchainAdapter.generateMockTxId l)
              userAddress) as [Hid Herr].
  split; [ exact Hid | ].
  split; [ exact Herr | ].
  split; [ reflexivity | apply generateMockTxId_length ].
Qed.

Lemma submitProof_after_failed_broadcast_witness :
  broadcast_reply offline = None /\
  ZKProof.proofHash (proof_with_hash "ab12") = Some "ab12" /\
  exists result tr,
    BlockchainAdapter.submitProof "credit_score.aleo" offline
      (proof_with_hash "ab12") "aleo1test123" "APrivateKey1test" =
      Some (result, tr) /\
    hd_error tr = Some (EvQuery 0) /\
    result =
      submission_result offline (BlockchainAdapter.generateMockTxId offline)
        "aleo1test123" /\
    CreditIssuanceResult.transactionId result =
      (if CreditIssuanceResult.success result
       then BlockchainAdapter.generateMockTxId offline else EmptyString) /\
    CreditIssuanceResult.error result =
      (if CreditIssuanceResult.success result then None
       else Some "Transaction confirmation timeout") /\
    startsWith (BlockchainAdapter.generateMockTxId offline) "at1" = true /\
    String.length (BlockchainAdapter.generateMockTxId offline) = 67%nat.
Proof.
  split; [ reflexivity | split; [ reflexivity | ] ].
  exact (submitProof_after_failed_broadcast "credit_score.aleo" offline
           (proof_with_hash "ab12") "ab12" "aleo1test123" "APrivateKey1test"
           eq_refl eq_refl).
Defined.

(** C7, as the specification words it: with the broadcast request failing
    (and every later request too), [submitProof] does not report a
    submission error; it reports success for a mock transaction id after
    one status poll. *)
Lemma submitProof_failed_broadcast_reports_success :
  broadcast_reply offline = None /\
  BlockchainAdapter.submitProof "credit_score.aleo" offline
    (proof_with_hash "ab12") "aleo1test123" "APrivateKey1test" =
  Some ({| CreditIssuanceResult.success := true;
           CreditIssuanceResult.transactionId :=
             "at10000000000000000000000000000000000000000000000000000000000000000";
           CreditIssuanceResult.creditRecord :=
             Some {| CreditRecord.owner := "aleo1test123";
                     CreditRecord.score := 300;
                     CreditRecord.threshold := 300;
                     CreditRecord.issuedBlock := 0;
                     CreditRecord.issuedAt := 1700000000000 |};
           CreditIssuanceResult.error := None |},
        [EvQuery 0]).
Proof. split; [ reflexivity | vm_compute; reflexivity ]. Qed.

(** ** ProofGenerator *)

Lemma hashProof_length `{Sha256} proof :
  String.length (ProofGenerator.hashProof proof) = 64%nat.
Proof.
  unfold ProofGenerator.hashProof.
  rewrite bytesToHex_length, sha256_length. reflexivity.
Qed.

Lemma generateProof_eq `{Sha256} rnd assessment :
  ProofGenerator.generateProof rnd assessment =
  Returned (built_proof rnd assessment).
Proof. reflexivity. Qed.

Lemma built_proof_verifies `{Sha256} rnd assessment :
  ProofGenerator.verifyProofLocally (built_proof rnd assessment) = true.
Proof.
  unfold ProofGenerator.verifyProofLocally, built_proof.
  cbn [ZKProof.proofHash ZKProof.proof ZKProof.publicInputs ZKProof.a
       ZKProof.b ZKProof.c is_None orb].
  pose proof (hashProof_length (drawn_components rnd)) as Hlen.
  destruct (ProofGenerator.hashProof (drawn_components rnd)) as [|ch rest];
    [ discriminate Hlen | reflexivity ].
Qed.

(** C10. Whatever the random draws and the assessment, [generateProof]
    returns a proof object, and that object passes [verifyProofLocally]:
    its [proofHash] is the 64-character hex form of the SHA-256 digest of
    the serialized components, its components [a], [b] and [c] are all
    present, and its [publicInputs] are exactly the final score, the
    timestamp and the address. Hence the SDK's [generateProof], which
    verifies right after generating, returns the same proof and never throws
    INVALID_PROOF. *)
Theorem generateProof_passes_verifyProofLocally `{Sha256}
    (rnd : entropy) (assessment : CreditAssessment.t) :
  exists (proof : ZKProof.t) (components : Groth16.t),
    ProofGenerator.generateProof rnd assessment = Returned proof /\
    ProofGenerator.verifyProofLocally proof = true /\
    ZKProof.proofHash proof = Some (ProofGenerator.hashProof components) /\
    ProofGenerator.hashProof components =
      bytesToHex (sha256 (list_byte_of_string (ProofGenerator.stringify components))) /\
    String.length (ProofGenerator.hashProof components) = 64%nat /\
    ZKProof.proof proof =
      Some {| ZKProof.a := Some (Groth16.a components);
              ZKProof.b := Some (Groth16.b components);
              ZKProof.c := Some (Groth16.c components) |} /\
    ZKProof.publicInputs proof =
      Some [ Number_toString (CreditAssessment.finalScore assessment);
             Number_toString (CreditAssessment.timestamp assessment);
             CreditAssessment.address assessment ] /\
    CreditScoreSDK.generateProof rnd assessment = Returned proof.
Proof.
  exists (built_proof rnd assessment), (drawn_components rnd).
  split; [ apply generateProof_eq | ].
  split; [ apply built_proof_verifies | ].
  split; [ reflexivity | ].
  split; [ reflexivity | ].
  split; [ apply hashProof_length | ].
  split; [ reflexivity | ].
  split; [ reflexivity | ].
  unfold CreditScoreSDK.generateProof.
  rewrite generateProof_eq. cbn [bind].
  rewrite built_proof_verifies. reflexivity.
Qed.

(** The generator run on the stand-in digest. *)
Example generateProof_stand_in :
  match @ProofGenerator.generateProof stand_in_digest (fun _ _ => x2a)
          (ScoringEngine.calculateScore 1700000000000
             (saturating "aleo1perfect" 100000 0)) with
  | Returned proof =>
      ProofGenerator.verifyProofLocally proof = true /\
      ZKProof.publicInputs proof = Some ["650"; "1700000000000"; "aleo1perfect"]
  | Thrown _ => False
  end.
Proof. vm_compute. split; reflexivity. Qed.

(** ** DataAggregator: the metrics cache *)

Section CachedEntry.
Variable address : string.
Variable m : WalletMetrics.t.
Variable t1 : Z.

Lemma cached_at_weaken j j' c :
  (j <= j')%nat -> cached_at address m t1 j c -> cached_at address m t1 j' c.
Proof.
  intros Hj (pre & e & post & Hc & Hk & Hv & Ht & Hpre & Hlen).
  exists pre, e, post. repeat split; auto; lia.
Qed.

Lemma lookup_cached j c :
  cached_at address m t1 j c ->
  exists e, LRUCache.lookup address c = Some e /\
            LRUCache.value e = m /\ t1 <= LRUCache.start e.
Proof.
  intros (pre & e & post & -> & Hk & Hv & Ht & Hpre & _).
  exists e. split; [ | auto ].
  unfold LRUCache.lookup.
  induction pre as [|x pre IH]; cbn [app find].
  - rewrite Hk, String.eqb_refl. reflexivity.
  - inversion Hpre as [|? ? Hx Hrest]; subst.
    apply String.eqb_neq in Hx. rewrite Hx. apply IH. exact Hrest.
Qed.

Lemma remove_length k (c : DataAggregator.cache) :
  (List.length (LRUCache.remove k c) <= List.length c)%nat.
Proof.
  unfold LRUCache.remove.
  induction c as [|x c IH]; cbn [filter List.length]; [ lia | ].
  destruct (negb _); cbn [List.length]; lia.
Qed.

Lemma remove_keeps_others k (c : DataAggregator.cache) :
  Forall (fun e' => LRUCache.key e' <> address) c ->
  Forall (fun e' => LRUCache.key e' <> address) (LRUCache.remove k c).
Proof.
  unfold LRUCache.remove.
  induction 1 as [|x c Hx Hc IH]; cbn [filter]; [ constructor | ].
  destruct (negb _); [ constructor; assumption | assumption ].
Qed.

Lemma remove_app k (c1 c2 : DataAggregator.cache) :
  LRUCache.remove k (c1 ++ c2)%list =
  (LRUCache.remove k c1 ++ LRUCache.remove k c2)%list.
Proof. apply filter_app. Qed.

(** Removing another key leaves the entry where it is, or nearer to
    the front. *)
Lemma remove_other k j c :
  k <> address ->
  cached_at address m t1 j c ->
  cached_at address m t1 j (LRUCache.remove k c).
Proof.
  intros Hk (pre & e & post & -> & He & Hv & Ht & Hpre & Hlen).
  exists (LRUCache.remove k pre), e, (LRUCache.remove k post).
  split.
  - rewrite remove_app. f_equal. unfold LRUCache.remove at 1.
    cbn [filter]. rewrite He.
    assert (Hne : String.eqb address k = false)
      by (apply String.eqb_neq; congruence).
    rewrite Hne. reflexivity.
  - repeat split; auto.
    + apply remove_keeps_others. exact Hpre.
    + pose proof (remove_length k pre). lia.
Qed.

(** Putting another key in front moves the entry one place back. *)
Lemma cons_other e0 j c :
  LRUCache.key e0 <> address ->
  cached_at address m t1 j c ->
  cached_at address m t1 (S j) (e0 :: c).
Proof.
  intros Hk (pre & e & post & -> & He & Hv & Ht & Hpre & Hlen).
  exists (e0 :: pre), e, post.
  repeat split; auto.
  cbn [List.length]. lia.
Qed.

(** Eviction takes the last entry; the entry survives while fewer than
    [MAX_CACHE_SIZE - 1] entries are in front of it. *)
Lemma evict_keeps j c :
  (S j < CACHE_CONFIG.MAX_CACHE_SIZE)%nat ->
  (CACHE_CONFIG.MAX_CACHE_SIZE <= List.length c)%nat ->
  cached_at address m t1 j c ->
  cached_at address m t1 j (removelast c).
Proof.
  intros Hj Hfull (pre & e & post & -> & He & Hv & Ht & Hpre & Hlen).
  destruct post as [|p post].
  - rewrite length_app in Hfull. cbn [List.length] in Hfull. lia.
  - exists pre, e, (removelast (p :: post)).
    split; [ | repeat split; auto ].
    rewrite removelast_app by discriminate. reflexivity.
Qed.

(** A [get] for the address within the time-to-live hits, and puts
    the entry in front. *)
Lemma get_hit j now c :
  cached_at address m t1 j c ->
  now <= t1 + CACHE_CONFIG.METRICS_TTL ->
  exists c',
    DataAggregator.cache_get now address c = (Some m, c') /\
    (t1 <= now -> cached_at address m t1 0 c').
Proof.
  intros Hc Hnow.
  destruct (lookup_cached j c Hc) as (e & Hl & Hv & Ht).
  unfold DataAggregator.cache_get, LRUCache.get. rewrite Hl.
  unfold LRUCache.is_stale.
  destruct (Z.gtb_spec (now - LRUCache.start e) CACHE_CONFIG.METRICS_TTL);
    [ lia | ].
  rewrite Hv. eexists. split; [ reflexivity | ].
  intros Hle. exists [], (LRUCache.mkEntry address m now), (LRUCache.remove address c).
  repeat split; auto.
Qed.

(** A [get] for another key moves the entry back by at most one. *)
Lemma get_other k j now c :
  k <> address ->
  cached_at address m t1 j c ->
  match DataAggregator.cache_get now k c with
  | (Some _, c') => cached_at address m t1 (S j) c'
  | (None, c') => cached_at address m t1 j c'
  end.
Proof.
  intros Hk Hc. unfold DataAggregator.cache_get, LRUCache.get.
  destruct (LRUCache.lookup k c) as [e|]; [ | exact Hc ].
  destruct (LRUCache.is_stale _ now e).
  - apply remove_other; assumption.
  - apply cons_other; [ exact Hk | apply remove_other; assumption ].
Qed.

(** A [set] for another key moves the entry back by at most one, and
    does not evict it while fewer than 99 entries are in front of it. *)
Lemma set_other k v j now c :
  k <> address ->
  (S j < CACHE_CONFIG.MAX_CACHE_SIZE)%nat ->
  cached_at address m t1 j c ->
  cached_at address m t1 (S j) (DataAggregator.cache_set now k v c).
Proof.
  intros Hk Hj Hc. unfold DataAggregator.cache_set, LRUCache.set.
  apply cons_other; [ exact Hk | ].
  apply (remove_other k) in Hc; [ | exact Hk ].
  destruct (Nat.leb_spec CACHE_CONFIG.MAX_CACHE_SIZE
              (List.length (LRUCache.remove k c))).
  - apply evict_keeps; assumption.
  - exact Hc.
Qed.
End CachedEntry.

(** An address that fails the format check is refused whatever the cache
    holds. *)
Lemma fetch_invalid_address mock w address c :
  falsy_string address || negb (startsWith address "aleo1") = true ->
  DataAggregator.fetchWalletMetrics mock w address c =
  (Thrown (RPCError "Invalid Aleo address format"), c).
Proof.
  intros Hbad. unfold DataAggregator.fetchWalletMetrics. rewrite Hbad.
  reflexivity.
Qed.

(** With mock data off, a successful fetch leaves its result in front of
    the cache, stamped with the time of the call. *)
Lemma fetch_caches w address c :
  falsy_string address || negb (startsWith address "aleo1") = false ->
  exists m c',
    DataAggregator.fetchWalletMetrics false w address c = (Returned m, c') /\
    cached_at address m (now w) 0 c'.
Proof.
  intros Hok. unfold DataAggregator.fetchWalletMetrics. rewrite Hok.
  unfold DataAggregator.cache_get, LRUCache.get.
  destruct (LRUCache.lookup address c) as [e|].
  - destruct (LRUCache.is_stale _ (now w) e).
    + eexists _, _. split; [ reflexivity | ].
      unfold DataAggregator.cache_set, LRUCache.set.
      eexists [], _, _. repeat split; try reflexivity; auto; cbn; lia.
    + eexists _, _. split; [ reflexivity | ].
      eexists [], _, _. repeat split; try reflexivity; auto; cbn; lia.
  - eexists _, _. split; [ reflexivity | ].
    unfold DataAggregator.cache_set, LRUCache.set.
    eexists [], _, _. repeat split; try reflexivity; auto; cbn; lia.
Qed.

(** One further fetch, for any address, within the time-to-live of the
    entry: the entry stays, at most one place further back. *)
Lemma fetch_keeps address m t1 j w a c :
  (S j < CACHE_CONFIG.MAX_CACHE_SIZE)%nat ->
  t1 <= now w <= t1 + CACHE_CONFIG.METRICS_TTL ->
  cached_at address m t1 j c ->
  cached_at address m t1 (S j)
    (snd (DataAggregator.fetchWalletMetrics false w a c)).
Proof.
  intros Hj Hw Hc. unfold DataAggregator.fetchWalletMetrics.
  destruct (falsy_string a || negb (startsWith a "aleo1")).
  - cbn [snd]. apply (cached_at_weaken address m t1 j); [ lia | exact Hc ].
  - destruct (String.eqb_spec a address) as [->|Hne].
    + destruct (get_hit address m t1 j (now w) c Hc) as (c' & Hget & Hc');
        [ lia | ].
      rewrite Hget. cbn [snd].
      apply (cached_at_weaken address m t1 0); [ lia | apply Hc'; lia ].
    + pose proof (get_other address m t1 a j (now w) c Hne Hc) as Hget.
      destruct (DataAggregator.cache_get (now w) a c) as [[cached|] c1];
        cbn [snd].
      * exact Hget.
      * apply set_other; assumption.
Qed.

Lemma fetch_all_keeps address m t1 calls :
  forall j c,
    (j + List.length calls < CACHE_CONFIG.MAX_CACHE_SIZE)%nat ->
    Forall (fun call => t1 <= now (fst call) <= t1 + CACHE_CONFIG.METRICS_TTL)
           calls ->
    cached_at address m t1 j c ->
    cached_at address m t1 (j + List.length calls)
      (DataAggregator.fetch_all false calls c).
Proof.
  induction calls as [|[w a] calls IH]; intros j c Hj Htimes Hc.
  - cbn [DataAggregator.fetch_all List.length]. rewrite Nat.add_0_r. exact Hc.
  - cbn [List.length] in *. inversion Htimes as [|? ? Hw Hrest]; subst.
    cbn [DataAggregator.fetch_all fst] in *.
    replace (j + S (List.length calls))%nat
      with (S j + List.length calls)%nat by lia.
    apply IH; [ lia | exact Hrest | ].
    apply fetch_keeps; [ lia | exact Hw | exact Hc ].
Qed.

(** C9, as the code has it. With mock data switched off, take a call of
    [fetchWalletMetrics] for an address, then fewer than [MAX_CACHE_SIZE]
    further calls for any addresses, all within the time-to-live of the
    first call, then a second call for the same address, also within that
    time-to-live, with no [clearCache] or [clearAllCache] anywhere in
    between. The second call gives the same result as the first, field for
    field, whatever the network answers in the meantime. *)
Theorem fetchWalletMetrics_cached_within_ttl
    (w1 w2 : world) (calls : list (world * string)) (address : string)
    (c0 : DataAggregator.cache) :
  (List.length calls < CACHE_CONFIG.MAX_CACHE_SIZE)%nat ->
  Forall (fun call =>
            now w1 <= now (fst call) <= now w1 + CACHE_CONFIG.METRICS_TTL)
         calls ->
  now w2 <= now w1 + CACHE_CONFIG.METRICS_TTL ->
  let first := DataAggregator.fetchWalletMetrics false w1 address c0 in
  let c2 := DataAggregator.fetch_all false calls (snd first) in
  fst (DataAggregator.fetchWalletMetrics false w2 address c2) = fst first.
Proof.
  intros Hlen Htimes Hw2 first c2. subst first c2.
  destruct (falsy_string address || negb (startsWith address "aleo1")) eqn:Hfmt.
  - rewrite !(fetch_invalid_address _ _ address) by exact Hfmt. reflexivity.
  - destruct (fetch_caches w1 address c0 Hfmt) as (m & c1 & Hfirst & Hc1).
    rewrite Hfirst. cbn [fst snd].
    pose proof (fetch_all_keeps address m (now w1) calls 0 c1 Hlen Htimes Hc1)
      as Hc2.
    destruct (get_hit address m (now w1) _ (now w2) _ Hc2 Hw2) as (c' & Hget & _).
    unfold DataAggregator.fetchWalletMetrics at 1.
    rewrite Hfmt, Hget. reflexivity.
Qed.

Lemma fetchWalletMetrics_cached_within_ttl_witness :
  let w1 := mkWorld 1000 (Some 42%Q) (Some 1%Q) (Some 55%Q) (Some 90%Q) (Some 7%Q) in
  let w2 := silent 3601000 in
  let calls := [(silent 2000, "aleo1other0"); (silent 3000, "aleo1cache123")] in
  (List.length calls < CACHE_CONFIG.MAX_CACHE_SIZE)%nat /\
  Forall (fun call =>
            now w1 <= now (fst call) <= now w1 + CACHE_CONFIG.METRICS_TTL)
         calls /\
  now w2 <= now w1 + CACHE_CONFIG.METRICS_TTL /\
  fst (DataAggregator.fetchWalletMetrics false w2 "aleo1cache123"
         (DataAggregator.fetch_all false calls
            (snd (DataAggregator.fetchWalletMetrics false w1 "aleo1cache123" []))))
  = fst (DataAggregator.fetchWalletMetrics false w1 "aleo1cache123" []).
Proof.
  intros w1 w2 calls.
  assert (Hlen : (List.length calls < CACHE_CONFIG.MAX_CACHE_SIZE)%nat)
    by (cbn; unfold CACHE_CONFIG.MAX_CACHE_SIZE; lia).
  assert (Htimes : Forall (fun call =>
            now w1 <= now (fst call) <= now w1 + CACHE_CONFIG.METRICS_TTL) calls)
    by (repeat constructor; cbn; unfold CACHE_CONFIG.METRICS_TTL; lia).
  assert (Hw2 : now w2 <= now w1 + CACHE_CONFIG.METRICS_TTL)
    by (cbn; unfold CACHE_CONFIG.METRICS_TTL; lia).
  split; [ exact Hlen | split; [ exact Htimes | split; [ exact Hw2 | ] ] ].
  exact (fetchWalletMetrics_cached_within_ttl w1 w2 calls "aleo1cache123" []
           Hlen Htimes Hw2).
Defined.

(** C9, as the specification words it: in mock-data mode nothing is put
    into the cache, and two fetches for one address, 1 ms apart, differ in
    [lastTransactionDate]. *)
Lemma fetchWalletMetrics_mock_data_differs :
  let first := DataAggregator.fetchWalletMetrics true (silent 1700000000000)
                 "aleo1cache123" [] in
  now (silent 1700000000001) - now (silent 1700000000000)
    <= CACHE_CONFIG.METRICS_TTL /\
  snd first = [] /\
  fst (DataAggregator.fetchWalletMetrics true (silent 1700000000001)
         "aleo1cache123" (snd first)) <> fst first.
Proof.
  cbv zeta. split; [ vm_compute; discriminate | ].
  split; [ reflexivity | ].
  vm_compute. intros Heq. inversion Heq.
Qed.

(** With mock data off, a hundred fetches for other addresses in between
    push the entry out of the cache, and the second fetch asks the network
    again. *)
Example fetchWalletMetrics_evicted_by_capacity :
  let w1 := mkWorld 1000 (Some 42%Q) (Some 1%Q) (Some 55%Q) (Some 90%Q) (Some 7%Q) in
  let calls := map (fun a => (silent 2000, a)) (other_addresses 100) in
  fst (DataAggregator.fetchWalletMetrics false (silent 3000) "aleo1cache123"
         (DataAggregator.fetch_all false calls
            (snd (DataAggregator.fetchWalletMetrics false w1 "aleo1cache123" []))))
  <> fst (DataAggregator.fetchWalletMetrics false w1 "aleo1cache123" []).
Proof. vm_compute. intros Heq. inversion Heq. Qed.

(* ================================================================== *)
(** * Further properties of the code *)
(* ================================================================== *)

(** ** ScoringEngine: what the bonus table can and cannot reach *)



(** X2. For metrics within the declared ranges the repayment bonus is at
    most 50 (a rate of 100 is 25 above the threshold), so the final score
    is at most 650 and the risk level is never low. *)
Theorem in_range_score_at_most_650 (now : Z) (m : WalletMetrics.t) :
  metrics_in_range m ->
  let a := ScoringEngine.calculateScore now m in
  (ScoringEngine.calculateRepaymentBonus (WalletMetrics.repaymentRate m) <= 50)%Q /\
  CreditAssessment.finalScore a <= 650 /\
  CreditAssessment.riskLevel a <> low.
Proof.
  intros (_ & _ & _ & Hrate & _). cbv zeta.
  assert (Hrep : (ScoringEngine.calculateRepaymentBonus
                    (WalletMetrics.repaymentRate m) <= 50)%Q)
    by bonus_arith.
  assert (Hu : (unrounded_score m <= 650)%Q).
  { rewrite unrounded_score_eq. unfold bonus_sum.
    pose proof (transactionBonus_bounds (WalletMetrics.transactionCount m)).
    pose proof (ageBonus_bounds (WalletMetrics.walletAgeMonths m)).
    pose proof (defiBonus_bounds (WalletMetrics.defiScore m)).
    lra. }
  assert (Hscore : score_of now m <= 650).
  { rewrite score_of_eq.
    apply (Math_round_bounds 300 650).
    pose proof (unrounded_score_bounds m).
    change (inject_Z 300) with 300%Q. change (inject_Z 650) with 650%Q. lra. }
  split; [ exact Hrep | split; [ exact Hscore | ] ].
  rewrite riskLevel_eq.
  unfold ScoringEngine.getRiskLevel, RISK_LEVELS.LOW_minScore.
  destruct (Qgeb_spec (unrounded_score m) 750); [ lra | ].
  destruct (Qgeb (unrounded_score m) RISK_LEVELS.MEDIUM_minScore); discriminate.
Qed.

Lemma in_range_score_at_most_650_witness :
  metrics_in_range (saturating "aleo1perfect" 100000 0) /\
  CreditAssessment.finalScore
    (ScoringEngine.calculateScore 0 (saturating "aleo1perfect" 100000 0)) <= 650.
Proof.
  assert (Hr : metrics_in_range (saturating "aleo1perfect" 100000 0))
    by (unfold metrics_in_range; cbn; lra).
  split; [ exact Hr | ].
  exact (proj1 (proj2 (in_range_score_at_most_650 0
                         (saturating "aleo1perfect" 100000 0) Hr))).
Defined.





(** ** DataAggregator: mock data, queries and the cache *)

Lemma to_int32_range z : - 2 ^ 31 <= to_int32 z < 2 ^ 31.
Proof.
  unfold to_int32.
  pose proof (Z.mod_pos_bound (z + 2 ^ 31) (2 ^ 32) ltac:(lia)). lia.
Qed.

Lemma js_and_range a b : - 2 ^ 31 <= js_and a b < 2 ^ 31.
Proof. exact (to_int32_range _). Qed.

(** A loop whose step stays within bounds stays within them. *)
Lemma fold_left_range (f : Z -> Z -> Z) (lo hi : Z) :
  (forall a b, lo <= f a b < hi) ->
  forall codes acc, lo <= acc < hi -> lo <= fold_left f codes acc < hi.
Proof.
  intros Hf. induction codes as [|ch codes IH]; intros acc Hacc; cbn [fold_left].
  - exact Hacc.
  - apply IH. apply Hf.
Qed.

(** The hash loop keeps its accumulator a signed 32-bit integer. *)
Lemma hash_loop_range (codes : list Z) :
  forall acc,
    - 2 ^ 31 <= acc < 2 ^ 31 ->
    - 2 ^ 31 <=
      fold_left (fun hash char : Z =>
                   js_and (js_shl hash 5 - hash + char)
                          (js_shl hash 5 - hash + char)) codes acc
    < 2 ^ 31.
Proof.
  apply fold_left_range. intros a b. apply js_and_range.
Qed.

Lemma hashAddress_range str : 0 <= DataAggregator.hashAddress str <= 2 ^ 31.
Proof.
  unfold DataAggregator.hashAddress.
  pose proof (hash_loop_range (charCodes str) 0 ltac:(lia)) as H.
  cbv zeta. lia.
Qed.

(** X6. [hashAddress] wraps to 32 bits at every character, so for a string
    of any length the hash is a non-negative integer of at most 2^31; the
    empty string hashes to 0. *)
Theorem hashAddress_is_32_bit (str : string) :
  0 <= DataAggregator.hashAddress str <= 2147483648 /\
  DataAggregator.hashAddress EmptyString = 0.
Proof.
  split; [ | reflexivity ].
  pose proof (hashAddress_range str). change (2 ^ 31) with 2147483648 in *. lia.
Qed.

Lemma js_mod_range h d : 0 <= h -> 0 < d -> 0 <= js_mod h d < d.
Proof. intros Hh Hd. unfold js_mod. apply Z.rem_bound_pos; lia. Qed.

(** Comparisons between injected integers are comparisons of integers. *)
Lemma inject_Z_le a b : (inject_Z a <= inject_Z b)%Q <-> a <= b.
Proof. rewrite Zle_Qle. reflexivity. Qed.

Lemma inject_Z_lt a b : (inject_Z a < inject_Z b)%Q <-> a < b.
Proof. rewrite Zlt_Qlt. reflexivity. Qed.

Lemma Math_floor_integer z : Math_floor (inject_Z z) = z.
Proof. apply Qfloor_Z. Qed.

Lemma getMockMetrics_ranges w address :
  let m := DataAggregator.getMockMetrics w address in
  WalletMetrics.address m = address /\
  (0 <= WalletMetrics.transactionCount m <= 99)%Q /\
  (1 <= WalletMetrics.walletAgeMonths m <= 36)%Q /\
  (0 <= WalletMetrics.defiScore m <= 100)%Q /\
  (50 <= WalletMetrics.repaymentRate m <= 99)%Q /\
  (1000 <= WalletMetrics.tokenBalance m <= 100999)%Q /\
  (inject_Z (now w - 2592000000) < WalletMetrics.lastTransactionDate m
   <= inject_Z (now w))%Q.
Proof.
  cbv zeta. unfold DataAggregator.getMockMetrics.
  cbn [WalletMetrics.address WalletMetrics.transactionCount
       WalletMetrics.walletAgeMonths WalletMetrics.defiScore
       WalletMetrics.repaymentRate WalletMetrics.tokenBalance
       WalletMetrics.lastTransactionDate].
  unfold DataAggregator.getMockTransactionCount, DataAggregator.getMockWalletAge,
    DataAggregator.getMockDeFiScore, DataAggregator.getMockRepaymentRate,
    DataAggregator.getMockBalance.
  rewrite !Math_floor_integer.
  pose proof (hashAddress_range address) as [Hh _].
  pose proof (js_mod_range (DataAggregator.hashAddress address) 100 Hh ltac:(lia)).
  pose proof (js_mod_range (DataAggregator.hashAddress address) 36 Hh ltac:(lia)).
  pose proof (js_mod_range (DataAggregator.hashAddress address) 101 Hh ltac:(lia)).
  pose proof (js_mod_range (DataAggregator.hashAddress address) 50 Hh ltac:(lia)).
  pose proof (js_mod_range (DataAggregator.hashAddress address) 100000 Hh ltac:(lia)).
  pose proof (js_mod_range (DataAggregator.hashAddress address)
                (1000 * 60 * 60 * 24 * 30) Hh ltac:(lia)).
  change 0%Q with (inject_Z 0). change 1%Q with (inject_Z 1).
  change 36%Q with (inject_Z 36). change 50%Q with (inject_Z 50).
  change 99%Q with (inject_Z 99). change 100%Q with (inject_Z 100).
  change 1000%Q with (inject_Z 1000). change 100999%Q with (inject_Z 100999).
  rewrite !inject_Z_le, !inject_Z_lt.
  repeat split; lia.
Qed.

Lemma getMockMetrics_in_range w address :
  metrics_in_range (DataAggregator.getMockMetrics w address).
Proof.
  pose proof (getMockMetrics_ranges w address) as H. cbv zeta in H.
  unfold metrics_in_range. lra.
Qed.

(** X7. For every address and every clock value the mock metrics lie
    within the declared ranges: 0..99 transactions, 1..36 months, a DeFi
    score of 0..100, a repayment rate of 50..99, a balance of 1000..100999,
    and a last transaction less than 30 days before the call. *)
Theorem getMockMetrics_within_ranges (w : world) (address : string) :
  let m := DataAggregator.getMockMetrics w address in
  metrics_in_range m /\
  WalletMetrics.address m = address /\
  (0 <= WalletMetrics.transactionCount m <= 99)%Q /\
  (1 <= WalletMetrics.walletAgeMonths m <= 36)%Q /\
  (0 <= WalletMetrics.defiScore m <= 100)%Q /\
  (50 <= WalletMetrics.repaymentRate m <= 99)%Q /\
  (1000 <= WalletMetrics.tokenBalance m <= 100999)%Q /\
  (inject_Z (now w - 2592000000) < WalletMetrics.lastTransactionDate m
   <= inject_Z (now w))%Q.
Proof.
  cbv zeta. split; [ apply getMockMetrics_in_range | ].
  apply getMockMetrics_ranges.
Qed.

Lemma js_or_num_nonneg x : (0 <= js_or_num x 0 <-> 0 <= x)%Q.
Proof.
  unfold js_or_num. destruct (Qeq_bool x 0) eqn:Hx; [ | reflexivity ].
  apply Qeq_bool_iff in Hx. split; intros; lra.
Qed.

Lemma clamp_percent x : (0 <= Qmin 100 (Qmax 0 x) <= 100)%Q.
Proof.
  pose proof (Q.min_spec 100 (Qmax 0 x)). pose proof (Q.max_spec 0 x). lra.
Qed.

(** The metrics a fetch builds from the five queries. *)
Lemma queried_fields_ranges w address :
  (0 <= DataAggregator.queryWalletAgeMonths w address)%Q /\
  (0 <= DataAggregator.queryDeFiScore w address <= 100)%Q /\
  (0 <= DataAggregator.queryRepaymentRate w address <= 100)%Q /\
  (0 <= DataAggregator.queryTokenBalance w address)%Q /\
  ((0 <= DataAggregator.queryTransactionCount w address)%Q <->
   forall count, transactions_reply w = Some count -> (0 <= count)%Q).
Proof.
  pose proof (getMockMetrics_ranges w address) as H. cbv zeta in H.
  unfold DataAggregator.getMockMetrics in H.
  cbn [WalletMetrics.address WalletMetrics.transactionCount
       WalletMetrics.walletAgeMonths WalletMetrics.defiScore
       WalletMetrics.repaymentRate WalletMetrics.tokenBalance
       WalletMetrics.lastTransactionDate] in H.
  destruct H as (_ & Ht & Ha & Hd & Hr & Hb & _).
  unfold DataAggregator.queryWalletAgeMonths, DataAggregator.queryDeFiScore,
    DataAggregator.queryRepaymentRate, DataAggregator.queryTokenBalance,
    DataAggregator.queryTransactionCount.
  split; [ | split; [ | split; [ | split ] ] ].
  - destruct (info_reply w) as [firstSeen|]; [ | lra ].
    destruct (Qeq_bool firstSeen 0); [ lra | apply Q.le_max_l ].
  - destruct (defi_reply w); [ apply clamp_percent | lra ].
  - destruct (lending_reply w); [ apply clamp_percent | lra ].
  - destruct (balance_reply w); [ apply Q.le_max_l | lra ].
  - destruct (transactions_reply w) as [c|].
    + rewrite js_or_num_nonneg. split.
      * intros Hc count Heq. inversion Heq; subst. exact Hc.
      * intros Hc. apply Hc. reflexivity.
    + split; [ intros _ count Heq; discriminate | intros _; lra ].
Qed.

(** X8. With mock data off, a fetch that misses the cache returns a record
    for the requested address, stamped with the time of the call, in which
    the wallet age, the DeFi score, the repayment rate and the balance are
    within their ranges whatever the network answered: those replies are
    clamped. The transaction count is passed on as it is, so the record is
    within the declared ranges exactly when the reported count is not
    negative. *)
Theorem fetched_metrics_clamped_except_count
    (w : world) (address : string) (c : DataAggregator.cache) :
  startsWith address "aleo1" = true ->
  LRUCache.lookup address c = None ->
  exists m c',
    DataAggregator.fetchWalletMetrics false w address c = (Returned m, c') /\
    WalletMetrics.address m = address /\
    WalletMetrics.lastTransactionDate m = inject_Z (now w) /\
    (0 <= WalletMetrics.walletAgeMonths m)%Q /\
    (0 <= WalletMetrics.defiScore m <= 100)%Q /\
    (0 <= WalletMetrics.repaymentRate m <= 100)%Q /\
    (0 <= WalletMetrics.tokenBalance m)%Q /\
    (metrics_in_range m <->
     forall count, transactions_reply w = Some count -> (0 <= count)%Q).
Proof.
  intros Hp Hmiss.
  assert (Hf : falsy_string address = false)
    by (destruct address; [ discriminate | reflexivity ]).
  unfold DataAggregator.fetchWalletMetrics.
  rewrite Hf, Hp. cbn [negb orb].
  unfold DataAggregator.cache_get, LRUCache.get. rewrite Hmiss.
  eexists _, _. split; [ reflexivity | ].
  cbn [WalletMetrics.address WalletMetrics.transactionCount
       WalletMetrics.walletAgeMonths WalletMetrics.defiScore
       WalletMetrics.repaymentRate WalletMetrics.tokenBalance
       WalletMetrics.lastTransactionDate].
  destruct (queried_fields_ranges w address) as (Ha & Hd & Hr & Hb & Hc).
  split; [ reflexivity | ].
  split; [ reflexivity | ].
  split; [ exact Ha | ].
  split; [ exact Hd | ].
  split; [ exact Hr | ].
  split; [ exact Hb | ].
  unfold metrics_in_range.
  cbn [WalletMetrics.address WalletMetrics.transactionCount
       WalletMetrics.walletAgeMonths WalletMetrics.defiScore
       WalletMetrics.repaymentRate WalletMetrics.tokenBalance
       WalletMetrics.lastTransactionDate].
  split.
  - intros Hin. apply Hc. apply Hin.
  - intros Hin. apply Hc in Hin. repeat split; solve [ exact Hin | apply Ha | apply Hd | apply Hr | apply Hb ].
Qed.

Lemma fetched_metrics_clamped_except_count_witness :
  startsWith "aleo1valid" "aleo1" = true /\
  LRUCache.lookup "aleo1valid" (@nil (LRUCache.entry WalletMetrics.t)) = None /\
  exists m c',
    DataAggregator.fetchWalletMetrics false negative_count_world "aleo1valid" [] =
      (Returned m, c') /\
    WalletMetrics.address m = "aleo1valid" /\
    WalletMetrics.lastTransactionDate m = inject_Z (now negative_count_world) /\
    (0 <= WalletMetrics.walletAgeMonths m)%Q /\
    (0 <= WalletMetrics.defiScore m <= 100)%Q /\
    (0 <= WalletMetrics.repaymentRate m <= 100)%Q /\
    (0 <= WalletMetrics.tokenBalance m)%Q /\
    (metrics_in_range m <->
     forall count, transactions_reply negative_count_world = Some count ->
                   (0 <= count)%Q).
Proof.
  split; [ reflexivity | split; [ reflexivity | ] ].
  exact (fetched_metrics_clamped_except_count negative_count_world "aleo1valid"
           [] eq_refl eq_refl).
Defined.

(** The two ways a fetch can end. *)
Lemma fetch_cases mock w address (c : DataAggregator.cache) :
  (startsWith address "aleo1" = false /\
   DataAggregator.fetchWalletMetrics mock w address c =
     (Thrown (RPCError "Invalid Aleo address format"), c)) \/
  (startsWith address "aleo1" = true /\
   exists m c',
     DataAggregator.fetchWalletMetrics mock w address c = (Returned m, c')).
Proof.
  destruct (startsWith address "aleo1") eqn:Hp.
  - right. split; [ reflexivity | ].
    assert (Hf : falsy_string address = false)
      by (destruct address; [ discriminate | reflexivity ]).
    unfold DataAggregator.fetchWalletMetrics.
    rewrite Hf, Hp. cbn [negb orb].
    destruct (DataAggregator.cache_get (now w) address c) as [[cached|] c1].
    + eexists _, _. reflexivity.
    + destruct mock; eexists _, _; reflexivity.
  - left. split; [ reflexivity | ].
    apply fetch_invalid_address. rewrite Hp. apply orb_true_r.
Qed.

(** X9. [fetchWalletMetrics] throws exactly when the address does not start
    with "aleo1" (the empty address included); what it throws is the
    RPCError "Invalid Aleo address format", and the cache is then left as it
    was. For any other address it returns metrics, whatever the network
    does. *)
Theorem fetchWalletMetrics_throws_iff_bad_address
    (mock : bool) (w : world) (address : string) (c : DataAggregator.cache) :
  (startsWith address "aleo1" = false /\
   DataAggregator.fetchWalletMetrics mock w address c =
     (Thrown (RPCError "Invalid Aleo address format"), c)) \/
  (startsWith address "aleo1" = true /\
   exists m c',
     DataAggregator.fetchWalletMetrics mock w address c = (Returned m, c')).
Proof. apply fetch_cases. Qed.

Lemma lookup_remove_None (k : string) (c : DataAggregator.cache) :
  LRUCache.lookup k (LRUCache.remove k c) = None.
Proof.
  unfold LRUCache.lookup, LRUCache.remove.
  induction c as [|x c IH]; cbn [filter find]; [ reflexivity | ].
  destruct (String.eqb (LRUCache.key x) k) eqn:Hx; cbn [negb find].
  - exact IH.
  - rewrite Hx. exact IH.
Qed.

Lemma remove_shrinks_on_hit (k : string) (c : DataAggregator.cache) e :
  LRUCache.lookup k c = Some e ->
  (S (List.length (LRUCache.remove k c)) <= List.length c)%nat.
Proof.
  unfold LRUCache.lookup, LRUCache.remove.
  induction c as [|x c IH]; cbn [filter find List.length]; [ discriminate | ].
  destruct (String.eqb (LRUCache.key x) k) eqn:Hx; cbn [negb List.length].
  - intros _. pose proof (remove_length k c) as Hl.
    unfold LRUCache.remove in Hl. lia.
  - intros Hfind. specialize (IH Hfind). lia.
Qed.

Lemma removelast_length {A} (l : list A) :
  List.length (removelast l) = Nat.pred (List.length l).
Proof.
  induction l as [|x [|y l] IH]; [ reflexivity | reflexivity | ].
  change (removelast (x :: y :: l)) with (x :: removelast (y :: l)).
  cbn [List.length] in *. rewrite IH. reflexivity.
Qed.

Lemma cache_get_length now k (c : DataAggregator.cache) :
  (List.length (snd (DataAggregator.cache_get now k c)) <= List.length c)%nat.
Proof.
  unfold DataAggregator.cache_get, LRUCache.get.
  destruct (LRUCache.lookup k c) as [e|] eqn:Hl; cbn [snd]; [ | lia ].
  pose proof (remove_shrinks_on_hit k c e Hl).
  destruct (LRUCache.is_stale _ now e); cbn [snd List.length]; lia.
Qed.

Lemma cache_set_length now k v (c : DataAggregator.cache) :
  (List.length c <= CACHE_CONFIG.MAX_CACHE_SIZE)%nat ->
  (List.length (DataAggregator.cache_set now k v c)
   <= CACHE_CONFIG.MAX_CACHE_SIZE)%nat.
Proof.
  intros Hc. unfold DataAggregator.cache_set, LRUCache.set.
  pose proof (remove_length k c) as Hr.
  cbn [List.length].
  destruct (Nat.leb_spec CACHE_CONFIG.MAX_CACHE_SIZE
              (List.length (LRUCache.remove k c))).
  - rewrite removelast_length. unfold CACHE_CONFIG.MAX_CACHE_SIZE in *. lia.
  - lia.
Qed.

Lemma fetch_size_bound mock w address (c : DataAggregator.cache) :
  (List.length c <= CACHE_CONFIG.MAX_CACHE_SIZE)%nat ->
  (List.length (snd (DataAggregator.fetchWalletMetrics mock w address c))
   <= CACHE_CONFIG.MAX_CACHE_SIZE)%nat.
Proof.
  intros Hc. unfold DataAggregator.fetchWalletMetrics.
  destruct (falsy_string address || negb (startsWith address "aleo1"));
    [ exact Hc | ].
  pose proof (cache_get_length (now w) address c) as Hg.
  destruct (DataAggregator.cache_get (now w) address c) as [[cached|] c1];
    cbn [snd] in *; [ lia | ].
  destruct mock; cbn [snd]; [ lia | ].
  apply cache_set_length. lia.
Qed.

(** X10. The cache never outgrows its capacity: from a cache of at most
    [MAX_CACHE_SIZE] = 100 entries, any run of [fetchWalletMetrics] calls,
    with mock data on or off, leaves at most 100 entries, so the size that
    [getCacheStats] reports never exceeds the maximum it reports. *)
Theorem cache_size_within_capacity
    (mock : bool) (calls : list (world * string)) (c : DataAggregator.cache) :
  (List.length c <= CACHE_CONFIG.MAX_CACHE_SIZE)%nat ->
  let stats :=
    DataAggregator.getCacheStats (DataAggregator.fetch_all mock calls c) in
  (fst (fst stats) <= snd (fst stats))%nat /\
  snd (fst stats) = 100%nat /\
  snd stats = 3600000.
Proof.
  intros Hc stats. subst stats.
  unfold DataAggregator.getCacheStats, LRUCache.size. cbn [fst snd].
  split; [ | split; reflexivity ].
  revert c Hc. induction calls as [|[w a] calls IH]; intros c Hc.
  - exact Hc.
  - cbn [DataAggregator.fetch_all]. apply IH. apply fetch_size_bound. exact Hc.
Qed.

Lemma cache_size_within_capacity_witness :
  let calls := map (fun a => (silent 2000, a)) (other_addresses 3) in
  (List.length (@nil (LRUCache.entry WalletMetrics.t))
   <= CACHE_CONFIG.MAX_CACHE_SIZE)%nat /\
  (fst (fst (DataAggregator.getCacheStats
               (DataAggregator.fetch_all false calls [])))
   <= 100)%nat.
Proof.
  intros calls.
  assert (H0 : (List.length (@nil (LRUCache.entry WalletMetrics.t))
                <= CACHE_CONFIG.MAX_CACHE_SIZE)%nat)
    by (cbn; unfold CACHE_CONFIG.MAX_CACHE_SIZE; lia).
  split; [ exact H0 | ].
  exact (proj1 (cache_size_within_capacity false calls [] H0)).
Defined.

(** X11. After [clearCache(address)] a fetch for that address gives what a
    fetch on an empty cache gives: the cached record is gone and the
    network (or the mock generator) is asked again. After [clearAllCache]
    the cache is empty. *)
Theorem clearCache_forces_refetch
    (mock : bool) (w : world) (address : string) (c : DataAggregator.cache) :
  fst (DataAggregator.fetchWalletMetrics mock w address
         (DataAggregator.clearCache address c)) =
  fst (DataAggregator.fetchWalletMetrics mock w address []) /\
  fst (fst (DataAggregator.getCacheStats (DataAggregator.clearAllCache c)))
  = 0%nat.
Proof.
  split; [ | reflexivity ].
  unfold DataAggregator.fetchWalletMetrics.
  destruct (falsy_string address || negb (startsWith address "aleo1"));
    [ reflexivity | ].
  unfold DataAggregator.cache_get, LRUCache.get, DataAggregator.clearCache,
    LRUCache.delete.
  rewrite lookup_remove_None. cbn [LRUCache.lookup find].
  destruct mock; reflexivity.
Qed.

(** With mock data off, a fetch for a well-formed address leaves its
    result as the first entry of the cache, stamped with the time of the
    call. *)
Lemma fetch_front w address c :
  falsy_string address || negb (startsWith address "aleo1") = false ->
  exists m rest,
    DataAggregator.fetchWalletMetrics false w address c =
      (Returned m, LRUCache.mkEntry address m (now w) :: rest).
Proof.
  intros Hok. unfold DataAggregator.fetchWalletMetrics. rewrite Hok.
  unfold DataAggregator.cache_get, LRUCache.get, DataAggregator.cache_set,
    LRUCache.set.
  destruct (LRUCache.lookup address c) as [e|].
  - destruct (LRUCache.is_stale _ (now w) e); eexists _, _; reflexivity.
  - eexists _, _; reflexivity.
Qed.

(** X12. Cached metrics expire: with mock data off, when a second fetch
    for the same address comes more than [METRICS_TTL] (one hour) after the
    first, with no call in between, it gives what a fetch on an empty cache
    gives at that moment, not the cached record. *)
Theorem fetchWalletMetrics_expires_after_ttl
    (w1 w2 : world) (address : string) (c0 : DataAggregator.cache) :
  now w1 + CACHE_CONFIG.METRICS_TTL < now w2 ->
  fst (DataAggregator.fetchWalletMetrics false w2 address
         (snd (DataAggregator.fetchWalletMetrics false w1 address c0))) =
  fst (DataAggregator.fetchWalletMetrics false w2 address []).
Proof.
  intros Hlate.
  destruct (falsy_string address || negb (startsWith address "aleo1")) eqn:Hfmt.
  - rewrite !(fetch_invalid_address _ _ address) by exact Hfmt. reflexivity.
  - destruct (fetch_front w1 address c0 Hfmt) as (m & rest & Hfirst).
    rewrite Hfirst. cbn [snd].
    unfold DataAggregator.fetchWalletMetrics. rewrite Hfmt.
    unfold DataAggregator.cache_get, LRUCache.get.
    cbn [LRUCache.lookup find LRUCache.key]. rewrite String.eqb_refl.
    unfold LRUCache.is_stale. cbn [LRUCache.start].
    destruct (Z.gtb_spec (now w2 - now w1) CACHE_CONFIG.METRICS_TTL); [ | lia ].
    reflexivity.
Qed.

Lemma fetchWalletMetrics_expires_after_ttl_witness :
  let w1 := mkWorld 1000 (Some 42%Q) (Some 1%Q) (Some 55%Q) (Some 90%Q) (Some 7%Q) in
  let w2 := mkWorld 3601001 (Some 43%Q) (Some 1%Q) (Some 55%Q) (Some 90%Q) (Some 7%Q) in
  now w1 + CACHE_CONFIG.METRICS_TTL < now w2 /\
  fst (DataAggregator.fetchWalletMetrics false w2 "aleo1cache123"
         (snd (DataAggregator.fetchWalletMetrics false w1 "aleo1cache123" []))) =
  fst (DataAggregator.fetchWalletMetrics false w2 "aleo1cache123" []).
Proof.
  intros w1 w2.
  assert (Hlate : now w1 + CACHE_CONFIG.METRICS_TTL < now w2)
    by (cbn; unfold CACHE_CONFIG.METRICS_TTL; lia).
  split; [ exact Hlate | ].
  exact (fetchWalletMetrics_expires_after_ttl w1 w2 "aleo1cache123" [] Hlate).
Defined.

Lemma mock_fetch_keeps_empty w address :
  snd (DataAggregator.fetchWalletMetrics true w address []) = [].
Proof.
  unfold DataAggregator.fetchWalletMetrics.
  destruct (falsy_string address || negb (startsWith address "aleo1"));
    reflexivity.
Qed.

Lemma mock_fetch_all_keeps_empty calls :
  DataAggregator.fetch_all true calls [] = [].
Proof.
  induction calls as [|[w a] calls IH]; [ reflexivity | ].
  cbn [DataAggregator.fetch_all]. rewrite mock_fetch_keeps_empty. exact IH.
Qed.

Lemma mock_fetch_on_empty w address :
  startsWith address "aleo1" = true ->
  DataAggregator.fetchWalletMetrics true w address [] =
  (Returned (DataAggregator.getMockMetrics w address), []).
Proof.
  intros Hp.
  assert (Hf : falsy_string address = false)
    by (destruct address; [ discriminate | reflexivity ]).
  unfold DataAggregator.fetchWalletMetrics. rewrite Hf, Hp. reflexivity.
Qed.

(** X13. In mock-data mode the aggregator never stores anything: starting
    from the empty cache of a new instance, the cache is still empty after
    any run of fetches, and every fetch for a well-formed address returns
    the mock metrics generated at that moment. *)
Theorem mock_mode_never_caches
    (calls : list (world * string)) (w : world) (address : string) :
  startsWith address "aleo1" = true ->
  DataAggregator.fetch_all true calls [] = [] /\
  DataAggregator.fetchWalletMetrics true w address
    (DataAggregator.fetch_all true calls []) =
  (Returned (DataAggregator.getMockMetrics w address), []).
Proof.
  intros Hp. rewrite mock_fetch_all_keeps_empty.
  split; [ reflexivity | apply mock_fetch_on_empty; exact Hp ].
Qed.

Lemma mock_mode_never_caches_witness :
  startsWith "aleo1cache123" "aleo1" = true /\
  DataAggregator.fetch_all true
    [(silent 1, "aleo1cache123"); (silent 2, "aleo1other0")] [] = [].
Proof.
  split; [ reflexivity | ].
  exact (proj1 (mock_mode_never_caches
                  [(silent 1, "aleo1cache123"); (silent 2, "aleo1other0")]
                  (silent 3) "aleo1cache123" eq_refl)).
Defined.

(** ** ProofGenerator: what the local check and the generator do *)

(** X14. [verifyProofLocally] accepts a proof object exactly when its
    [proofHash] is a non-empty string, its [proof] has all three components
    [a], [b] and [c], and its [publicInputs] is a non-empty list. Nothing
    else is looked at: the hash is not compared with the components. *)
Theorem verifyProofLocally_true_iff (p : ZKProof.t) :
  ProofGenerator.verifyProofLocally p = true <->
  (exists h, ZKProof.proofHash p = Some h /\ h <> EmptyString) /\
  (exists a b c,
      ZKProof.proof p =
        Some {| ZKProof.a := Some a; ZKProof.b := Some b; ZKProof.c := Some c |}) /\
  (exists inputs, ZKProof.publicInputs p = Some inputs /\ inputs <> []).
Proof.
  unfold ProofGenerator.verifyProofLocally.
  destruct p as [hash inputs components]. cbn [ZKProof.proofHash ZKProof.proof
    ZKProof.publicInputs].
  split.
  - intros Hv.
    destruct hash as [[|ch h]|]; cbn in Hv; try discriminate.
    destruct components as [[[a|] [b|] [c|]]|]; cbn in Hv; try discriminate.
    destruct inputs as [[|i inputs]|]; cbn in Hv; try discriminate.
    split; [ eexists; split; [ reflexivity | discriminate ] | ].
    split; [ eexists _, _, _; reflexivity | ].
    eexists; split; [ reflexivity | discriminate ].
  - intros ((h & Hh & Hne) & (a & b & c & Hc) & (ins & Hi & Hine)).
    subst hash components inputs.
    destruct h as [|ch h]; [ contradiction | ].
    destruct ins as [|i ins]; [ contradiction | ].
    reflexivity.
Qed.

(** X15. The simulated prover does not consult the witness: with the same
    random draws, the proofs generated for any two assessments have the
    same components and the same [proofHash]; only the public inputs tell
    them apart. *)
Theorem generated_proof_ignores_assessment `{Sha256}
    (rnd : entropy) (a1 a2 : CreditAssessment.t) :
  exists p1 p2,
    ProofGenerator.generateProof rnd a1 = Returned p1 /\
    ProofGenerator.generateProof rnd a2 = Returned p2 /\
    ZKProof.proofHash p1 = ZKProof.proofHash p2 /\
    ZKProof.proof p1 = ZKProof.proof p2 /\
    ZKProof.publicInputs p1 = Some (ProofGenerator.createPublicInputs a1) /\
    ZKProof.publicInputs p2 = Some (ProofGenerator.createPublicInputs a2).
Proof.
  exists (built_proof rnd a1), (built_proof rnd a2).
  split; [ apply generateProof_eq | ].
  split; [ apply generateProof_eq | ].
  repeat split.
Qed.

Lemma getRandomValues32_ext (rnd rnd' : entropy) k :
  (forall i, rnd k i = rnd' k i) ->
  getRandomValues32 rnd k = getRandomValues32 rnd' k.
Proof.
  intros Hk. unfold getRandomValues32. apply map_ext. exact Hk.
Qed.

(** X16. The random secret put into the witness has no effect on the
    result: two runs whose eight prover draws agree return the same proof
    object, whatever the first draw (the secret) was. *)
Theorem generated_proof_ignores_secret `{Sha256}
    (rnd rnd' : entropy) (assessment : CreditAssessment.t) :
  (forall k i, (1 <= k <= 8)%nat -> rnd k i = rnd' k i) ->
  ProofGenerator.generateProof rnd assessment =
  ProofGenerator.generateProof rnd' assessment.
Proof.
  intros Hsame. rewrite !generateProof_eq. f_equal.
  assert (Hdraw : forall k, (1 <= k <= 8)%nat ->
            ProofGenerator.generateRandomHex rnd k =
            ProofGenerator.generateRandomHex rnd' k).
  { intros k Hk. unfold ProofGenerator.generateRandomHex.
    rewrite (getRandomValues32_ext rnd rnd' k); [ reflexivity | ].
    intros i. apply Hsame. exact Hk. }
  assert (Hc : drawn_components rnd = drawn_components rnd').
  { unfold drawn_components.
    rewrite !Hdraw by lia. reflexivity. }
  unfold built_proof. rewrite Hc. reflexivity.
Qed.

Lemma generated_proof_ignores_secret_witness :
  let rnd : entropy := fun k _ => if (k =? 0)%nat then x00 else x2a in
  let rnd' : entropy := fun k _ => if (k =? 0)%nat then xff else x2a in
  (forall k i, (1 <= k <= 8)%nat -> rnd k i = rnd' k i) /\
  @ProofGenerator.generateProof stand_in_digest rnd
    (ScoringEngine.calculateScore 0 mid_range) =
  @ProofGenerator.generateProof stand_in_digest rnd'
    (ScoringEngine.calculateScore 0 mid_range).
Proof.
  intros rnd rnd'.
  assert (Hsame : forall k i, (1 <= k <= 8)%nat -> rnd k i = rnd' k i).
  { intros k i Hk. subst rnd rnd'. cbv beta.
    destruct (Nat.eqb_spec k 0); [ lia | reflexivity ]. }
  split; [ exact Hsame | ].
  exact (@generated_proof_ignores_secret stand_in_digest rnd rnd'
           (ScoringEngine.calculateScore 0 mid_range) Hsame).
Defined.

Lemma hex_digit_is_hex n : is_hex_digit (hex_digit n) = true.
Proof.
  destruct n as [|p]; [ reflexivity | ].
  destruct p as [[[[p|p|]|[p|p|]|]|[[p|p|]|[p|p|]|]|]
                |[[[p|p|]|[p|p|]|]|[[p|p|]|[p|p|]|]|]|]; reflexivity.
Qed.

Lemma bytesToHex_all_hex bytes :
  all_chars is_hex_digit (bytesToHex bytes) = true.
Proof.
  induction bytes as [|b rest IH]; [ reflexivity | ].
  cbn [bytesToHex all_chars]. rewrite !hex_digit_is_hex, IH. reflexivity.
Qed.

Lemma getRandomValues32_length rnd k :
  List.length (getRandomValues32 rnd k) = 32%nat.
Proof. unfold getRandomValues32. rewrite length_map, length_seq. reflexivity. Qed.

(** X17. Every string the generator produces from bytes is lower-case
    hexadecimal of twice the byte count: [bytesToHex] in general, hence the
    secret and each random component (64 digits from 32 bytes) and the
    [proofHash] (64 digits from the digest). *)
Theorem generated_strings_are_hex `{Sha256}
    (bytes : list byte) (rnd : entropy) (k : nat) (components : Groth16.t) :
  (String.length (bytesToHex bytes) = 2 * List.length bytes)%nat /\
  all_chars is_hex_digit (bytesToHex bytes) = true /\
  String.length (ProofGenerator.generateSecret rnd) = 64%nat /\
  all_chars is_hex_digit (ProofGenerator.generateSecret rnd) = true /\
  String.length (ProofGenerator.generateRandomHex rnd k) = 64%nat /\
  all_chars is_hex_digit (ProofGenerator.generateRandomHex rnd k) = true /\
  String.length (ProofGenerator.hashProof components) = 64%nat /\
  all_chars is_hex_digit (ProofGenerator.hashProof components) = true.
Proof.
  unfold ProofGenerator.generateSecret, ProofGenerator.generateRandomHex.
  rewrite !bytesToHex_length, !getRandomValues32_length.
  repeat split; try apply bytesToHex_all_hex; try apply hashProof_length.
Qed.

(** ** BlockchainAdapter: what a submission reports *)

Lemma submission_result_cases l txId user :
  (exists k tx,
      first_confirmed (BlockchainAdapter.queryTransaction l txId) 20 0 = Some (k, tx) /\
      submission_result l txId user =
        {| CreditIssuanceResult.success := true;
           CreditIssuanceResult.transactionId := txId;
           CreditIssuanceResult.creditRecord :=
             Some (BlockchainAdapter.extractCreditRecord l tx user);
           CreditIssuanceResult.error := None |}) \/
  (first_confirmed (BlockchainAdapter.queryTransaction l txId) 20 0 = None /\
   submission_result l txId user =
     {| CreditIssuanceResult.success := false;
        CreditIssuanceResult.transactionId := EmptyString;
        CreditIssuanceResult.creditRecord := None;
        CreditIssuanceResult.error := Some "Transaction confirmation timeout" |}).
Proof.
  unfold submission_result, poll_answer.
  destruct (first_confirmed (BlockchainAdapter.queryTransaction l txId) 20 0)
    as [[k tx]|].
  - left. exists k, tx. split; reflexivity.
  - right. split; reflexivity.
Qed.

(** X18. [submitProof] always comes back with a result object, never with
    an exception. Either it reports success, with no error text and a
    credit record owned by the submitting address, with threshold 300 and a
    score of 300 plus the random draw; or it reports failure, with an empty
    transaction id, no record, and as error text the confirmation timeout
    or, for a proof object without [proofHash], the message of the
    TypeError the engine raises while signing, in which case the network is
    never polled. *)
Theorem submitProof_result_shape
    (contract : string) (l : ledger) (proof : ZKProof.t)
    (userAddress privateKey : string) :
  exists result tr,
    BlockchainAdapter.submitProof contract l proof userAddress privateKey =
      Some (result, tr) /\
    ((CreditIssuanceResult.success result = true /\
      CreditIssuanceResult.error result = None /\
      exists record,
        CreditIssuanceResult.creditRecord result = Some record /\
        CreditRecord.owner record = userAddress /\
        CreditRecord.threshold record = 300 /\
        CreditRecord.score record = 300 + random_score l) \/
     (CreditIssuanceResult.success result = false /\
      CreditIssuanceResult.transactionId result = EmptyString /\
      CreditIssuanceResult.creditRecord result = None /\
      (CreditIssuanceResult.error result =
         Some "Transaction confirmation timeout" \/
       ZKProof.proofHash proof = None /\ tr = [] /\
       CreditIssuanceResult.error result =
         Some (undefined_slice_message l)))).
Proof.
  destruct (ZKProof.proofHash proof) as [h|] eqn:Hh.
  - destruct (submitProof_polls contract l proof h userAddress privateKey Hh)
      as (tr & Hrun & _).
    eexists _, tr. split; [ exact Hrun | ].
    match goal with
    | |- context [submission_result l ?id userAddress] =>
        destruct (submission_result_cases l id userAddress)
          as [(k & tx & _ & Hres)|[_ Hres]]
    end; rewrite Hres; cbn.
    + left. split; [ reflexivity | split; [ reflexivity | ] ].
      eexists. split; [ reflexivity | ]. repeat split.
    + right. repeat split. left. reflexivity.
  - unfold BlockchainAdapter.submitProof, BlockchainAdapter.buildTransaction.
    rewrite Hh. cbn [bind]. eexists _, _. split; [ reflexivity | ].
    right. cbn. repeat split. right. repeat split.
Qed.

(** X19. The private key plays no part in a submission: the mock signature
    is made from the proof hash alone, so [submitProof] gives the same
    result for every key, the empty string included. *)
Theorem submitProof_ignores_privateKey
    (contract : string) (l : ledger) (proof : ZKProof.t)
    (userAddress privateKey : string) :
  BlockchainAdapter.submitProof contract l proof userAddress privateKey =
  BlockchainAdapter.submitProof contract l proof userAddress EmptyString.
Proof.
  unfold BlockchainAdapter.submitProof, BlockchainAdapter.buildTransaction,
    BlockchainAdapter.broadcastTransaction.
  destruct (ZKProof.proofHash proof) as [h|]; reflexivity.
Qed.

(** X20. A status request that fails is taken for a confirmation: if the
    first [k] polls ([k] < 20) report the transaction pending or failed and
    the next request fails, [submitProof] reports success, with a credit
    record whose block and time are the mock values made up for that poll. *)
Theorem submitProof_failed_poll_counts_as_confirmed
    (contract : string) (l : ledger) (proof : ZKProof.t)
    (h userAddress privateKey txId : string) (k : nat) :
  ZKProof.proofHash proof = Some h ->
  broadcast_reply l = Some txId ->
  (k < 20)%nat ->
  (forall i, (i < k)%nat ->
     exists tx, transaction_reply l i = Some tx /\
                AleoTransaction.status tx <> confirmed) ->
  transaction_reply l k = None ->
  exists tr,
    BlockchainAdapter.submitProof contract l proof userAddress privateKey =
    Some ({| CreditIssuanceResult.success := true;
             CreditIssuanceResult.transactionId := txId;
             CreditIssuanceResult.creditRecord :=
               Some {| CreditRecord.owner := userAddress;
                       CreditRecord.score := 300 + random_score l;
                       CreditRecord.threshold := 300;
                       CreditRecord.issuedBlock := js_or (random_block l k) 0;
                       CreditRecord.issuedAt :=
                         js_or (clock l k) (clock_end l) |};
             CreditIssuanceResult.error := None |}, tr).
Proof.
  intros Hh Hb Hk Hbefore Hfail.
  destruct (submitProof_polls contract l proof h userAddress privateKey Hh)
    as (tr & Hrun & _).
  rewrite Hb in Hrun. exists tr. rewrite Hrun. f_equal. f_equal.
  set (mock := {| AleoTransaction.id := txId;
                  AleoTransaction.status := confirmed;
                  AleoTransaction.blockHeight := Some (random_block l k);
                  AleoTransaction.timestamp := Some (clock l k) |}).
  assert (Hfound :
    first_confirmed (BlockchainAdapter.queryTransaction l txId) 20 0 =
    Some (k, mock)).
  { apply first_confirmed_found; try lia.
    - intros i Hi. destruct (Hbefore i ltac:(lia)) as (tx & Htx & Hs).
      cbn [first_confirmed]. unfold BlockchainAdapter.queryTransaction.
      rewrite Htx. destruct (AleoTransaction.status tx);
        [ reflexivity | contradiction | reflexivity ].
    - unfold BlockchainAdapter.queryTransaction. rewrite Hfail. reflexivity.
    - reflexivity. }
  unfold submission_result.
  rewrite (poll_answer_found _ _ _ _ _ Hfound). reflexivity.
Qed.

Lemma submitProof_failed_poll_counts_as_confirmed_witness :
  let l := mkLedger (Some "at1x")
             (fun i => if (i <? 2)%nat then Some (reported "at1x" pending) else None)
             (fun _ => 1700000000000) 1700000000001 (fun _ => 424242) 7
             (fun _ _ => x00)
             "Cannot read properties of undefined (reading 'slice')" in
  ZKProof.proofHash (proof_with_hash "ab12") = Some "ab12" /\
  broadcast_reply l = Some "at1x" /\
  (2 < 20)%nat /\
  (forall i, (i < 2)%nat ->
     exists tx, transaction_reply l i = Some tx /\
                AleoTransaction.status tx <> confirmed) /\
  transaction_reply l 2 = None /\
  exists tr,
    BlockchainAdapter.submitProof "credit_score.aleo" l (proof_with_hash "ab12")
      "aleo1test123" "APrivateKey1test" =
    Some ({| CreditIssuanceResult.success := true;
             CreditIssuanceResult.transactionId := "at1x";
             CreditIssuanceResult.creditRecord :=
               Some {| CreditRecord.owner := "aleo1test123";
                       CreditRecord.score := 300 + random_score l;
                       CreditRecord.threshold := 300;
                       CreditRecord.issuedBlock := js_or (random_block l 2) 0;
                       CreditRecord.issuedAt :=
                         js_or (clock l 2) (clock_end l) |};
             CreditIssuanceResult.error := None |}, tr).
Proof.
  intros l.
  assert (Hbefore : forall i, (i < 2)%nat ->
     exists tx, transaction_reply l i = Some tx /\
                AleoTransaction.status tx <> confirmed).
  { intros i Hi. exists (reported "at1x" pending). subst l.
    cbn [transaction_reply].
    destruct (Nat.ltb_spec i 2); [ | lia ].
    split; [ reflexivity | discriminate ]. }
  assert (Hk : (2 < 20)%nat) by lia.
  split; [ reflexivity | ].
  split; [ reflexivity | ].
  split; [ exact Hk | ].
  split; [ exact Hbefore | ].
  split; [ reflexivity | ].
  exact (submitProof_failed_poll_counts_as_confirmed "credit_score.aleo" l
           (proof_with_hash "ab12") "ab12" "aleo1test123" "APrivateKey1test"
           "at1x" 2 eq_refl eq_refl Hk Hbefore eq_refl).
Defined.

(** ** CreditScoreSDK: the session and the complete flow *)

Lemma ensureInitialized_cases sdk :
  (exists address,
      CreditScoreSDK.userAddress sdk = Some address /\
      falsy_string address = false /\
      CreditScoreSDK.ensureInitialized sdk = Returned address) \/
  CreditScoreSDK.ensureInitialized sdk =
    Thrown (SDKError "SDK not initialized. Call init() first." "NOT_INITIALIZED").
Proof.
  unfold CreditScoreSDK.ensureInitialized.
  destruct (CreditScoreSDK.userAddress sdk) as [address|]; [ | right; reflexivity ].
  destruct (falsy_string address) eqn:Hf; [ right; reflexivity | ].
  left. exists address. repeat split. exact Hf.
Qed.

(** X21. [init] accepts exactly the addresses that start with "aleo1" and
    otherwise throws the SDKError with code INVALID_ADDRESS. After a
    successful [init] the SDK counts as initialised for that address, with
    contract and cached metrics as before; a second [init] replaces the
    address and keeps the cache. *)
Theorem init_accepts_iff_prefix (sdk : CreditScoreSDK.t) (address : string) :
  (startsWith address "aleo1" = true /\
   exists sdk',
     CreditScoreSDK.init sdk address = Returned sdk' /\
     CreditScoreSDK.ensureInitialized sdk' = Returned address /\
     CreditScoreSDK.cache sdk' = CreditScoreSDK.cache sdk /\
     CreditScoreSDK.contractAddress sdk' = CreditScoreSDK.contractAddress sdk) \/
  (startsWith address "aleo1" = false /\
   CreditScoreSDK.init sdk address =
     Thrown (SDKError "Invalid Aleo address format" "INVALID_ADDRESS")).
Proof.
  unfold CreditScoreSDK.init.
  destruct (startsWith address "aleo1") eqn:Hp; cbn [negb].
  - left. split; [ reflexivity | ]. eexists. split; [ reflexivity | ].
    assert (Hf : falsy_string address = false)
      by (destruct address; [ discriminate | reflexivity ]).
    unfold CreditScoreSDK.ensureInitialized. cbn. rewrite Hf.
    repeat split.
  - right. split; reflexivity.
Qed.

(** X22. On an SDK object on which [init] has not succeeded, every operation
    that needs the user throws the SDKError with code NOT_INITIALIZED:
    fetching metrics, issuing credit, the complete flow (which passes the
    error on unwrapped) and the score query; nothing is requested from the
    network and the object is left as it was. [clearCache] does nothing. *)
Theorem fresh_sdk_not_initialized `{Sha256}
    (contract : string) (mock : bool) (w : world) (score_time : Z)
    (rnd : entropy) (l : ledger) (proof : ZKProof.t) (privateKey : string)
    (reply : option Z) :
  let sdk := SDKSession.create contract in
  let not_initialized :=
    SDKError "SDK not initialized. Call init() first." "NOT_INITIALIZED" in
  CreditScoreSDK.fetchWalletMetrics mock w sdk = (Thrown not_initialized, sdk) /\
  CreditScoreSDK.issueCredit l sdk proof privateKey =
    Some (Thrown not_initialized) /\
  CreditScoreSDK.issueCreditFlow mock w score_time rnd l sdk privateKey =
    Some (Thrown not_initialized) /\
  SDKSession.fetchCreditScore reply sdk = Thrown not_initialized /\
  SDKSession.clearCache sdk = sdk.
Proof. cbv zeta. repeat split. Qed.

(** X23. The complete flow always ends, and in one of four ways. It returns
    the result object of the submission for the initialised address; or it
    throws the NOT_INITIALIZED error, the RPCError for an address without
    the "aleo1" prefix, or the SDKError with code FLOW_ERROR that wraps a
    rejection of the fetched metrics by [validateMetrics]. It never ends
    with a proof error or a transaction error. *)
Theorem issueCreditFlow_outcomes `{Sha256}
    (mock : bool) (w : world) (score_time : Z) (rnd : entropy) (l : ledger)
    (sdk : CreditScoreSDK.t) (privateKey : string) :
  let txId := match broadcast_reply l with
              | Some transaction_id => transaction_id
              | None => BlockchainAdapter.generateMockTxId l
              end in
  exists r,
    CreditScoreSDK.issueCreditFlow mock w score_time rnd l sdk privateKey =
      Some r /\
    ((exists address,
        CreditScoreSDK.userAddress sdk = Some address /\
        startsWith address "aleo1" = true /\
        r = Returned (submission_result l txId address)) \/
     r = Thrown (SDKError "SDK not initialized. Call init() first."
                          "NOT_INITIALIZED") \/
     r = Thrown (RPCError "Invalid Aleo address format") \/
     r = Thrown (SDKError "Credit issuance flow failed" "FLOW_ERROR")).
Proof.
  intros txId.
  destruct (ensureInitialized_cases sdk) as [(address & Hu & Hf & He)|He].
  - unfold CreditScoreSDK.issueCreditFlow, CreditScoreSDK.fetchWalletMetrics.
    rewrite He.
    destruct (fetch_cases mock w address (CreditScoreSDK.cache sdk))
      as [[Hp Hfetch]|[Hp (m & c' & Hfetch)]]; rewrite Hfetch.
    + eexists. split; [ reflexivity | ]. right. right. left. reflexivity.
    + cbn [bind].
      destruct (ScoringEngine.validateMetrics m) as [[]|e] eqn:Hv.
      * cbn [bind]. unfold CreditScoreSDK.generateProof.
        rewrite generateProof_eq. cbn [bind].
        rewrite built_proof_verifies. cbn [negb].
        unfold CreditScoreSDK.issueCredit, CreditScoreSDK.ensureInitialized.
        cbn [CreditScoreSDK.userAddress CreditScoreSDK.contractAddress].
        rewrite Hu, Hf.
        destruct (submitProof_polls (CreditScoreSDK.contractAddress sdk) l
                    (built_proof rnd
                       (CreditScoreSDK.calculateScore score_time m))
                    _ address privateKey eq_refl) as (tr & Hrun & _).
        rewrite Hrun. eexists. split; [ reflexivity | ].
        left. exists address. repeat split; assumption.
      * destruct (validateMetrics_throws_Error m e Hv) as [message ->].
        cbn. eexists. split; [ reflexivity | ].
        right. right. right. reflexivity.
  - unfold CreditScoreSDK.issueCreditFlow, CreditScoreSDK.fetchWalletMetrics.
    rewrite He. eexists. split; [ reflexivity | ]. right. left. reflexivity.
Qed.

(** X24. With mock data switched on, the complete flow on an SDK initialised
    for an address with the "aleo1" prefix and with nothing cached never
    throws: it returns the result object of the submission, whatever the
    network answers to the metric requests. *)
Theorem issueCreditFlow_mock_never_throws `{Sha256}
    (contract : string) (w : world) (score_time : Z) (rnd : entropy)
    (l : ledger) (address privateKey : string) :
  startsWith address "aleo1" = true ->
  let txId := match broadcast_reply l with
              | Some transaction_id => transaction_id
              | None => BlockchainAdapter.generateMockTxId l
              end in
  CreditScoreSDK.issueCreditFlow true w score_time rnd l
    (CreditScoreSDK.mk contract (Some address) []) privateKey =
  Some (Returned (submission_result l txId address)).
Proof.
  intros Hp txId.
  assert (Hf : falsy_string address = false)
    by (destruct address; [ discriminate | reflexivity ]).
  unfold CreditScoreSDK.issueCreditFlow, CreditScoreSDK.fetchWalletMetrics,
    CreditScoreSDK.ensureInitialized.
  cbn [CreditScoreSDK.userAddress CreditScoreSDK.contractAddress
       CreditScoreSDK.cache].
  rewrite Hf, (mock_fetch_on_empty w address Hp). cbn [bind].
  assert (Hv : ScoringEngine.validateMetrics
                 (DataAggregator.getMockMetrics w address) = Returned tt).
  { apply validateMetrics_Returned_iff. split.
    - exact Hp.
    - apply getMockMetrics_in_range. }
  rewrite Hv. cbn [bind]. unfold CreditScoreSDK.generateProof.
  rewrite generateProof_eq. cbn [bind].
  rewrite built_proof_verifies. cbn [negb].
  unfold CreditScoreSDK.issueCredit, CreditScoreSDK.ensureInitialized.
  cbn [CreditScoreSDK.userAddress CreditScoreSDK.contractAddress].
  rewrite Hf.
  destruct (submitProof_polls contract l
              (built_proof rnd
                 (CreditScoreSDK.calculateScore score_time
                    (DataAggregator.getMockMetrics w address)))
              _ address privateKey eq_refl) as (tr & Hrun & _).
  rewrite Hrun. reflexivity.
Qed.

Lemma issueCreditFlow_mock_never_throws_witness :
  startsWith "aleo1test123" "aleo1" = true /\
  CreditScoreSDK.issueCreditFlow (H := stand_in_digest) true
    (silent 1700000000000) 1700000000000 (fun _ _ => x00) offline
    (CreditScoreSDK.mk "credit_score.aleo" (Some "aleo1test123") [])
    "APrivateKey1test" =
  Some (Returned
          (submission_result offline
             match broadcast_reply offline with
             | Some transaction_id => transaction_id
             | None => BlockchainAdapter.generateMockTxId offline
             end "aleo1test123")).
Proof.
  split; [ reflexivity | ].
  exact (issueCreditFlow_mock_never_throws (H := stand_in_digest)
           "credit_score.aleo" (silent 1700000000000) 1700000000000
           (fun _ _ => x00) offline "aleo1test123" "APrivateKey1test"
           eq_refl).
Defined.

(** X25. The score query of an initialised SDK never throws. It answers
    null both when the request fails and when the stored score is 0, so a
    stored score of 0 cannot be told from a missing record; any other
    stored score is returned as it is. *)
Theorem fetchCreditScore_null_cases
    (reply : option Z) (sdk : CreditScoreSDK.t) (address : string) :
  CreditScoreSDK.ensureInitialized sdk = Returned address ->
  exists answer,
    SDKSession.fetchCreditScore reply sdk = Returned answer /\
    (answer = None <-> reply = None \/ reply = Some 0) /\
    (forall score, answer = Some score <-> reply = Some score /\ score <> 0).
Proof.
  intros He. unfold SDKSession.fetchCreditScore. rewrite He. cbn [bind].
  eexists. split; [ reflexivity | ].
  unfold AdapterQueries.fetchCreditScore.
  destruct reply as [value|].
  - destruct (Z.eqb_spec value 0) as [->|Hne].
    + split.
      * split; [ intros _; right; reflexivity | reflexivity ].
      * intros score. split; [ discriminate | ].
        intros [Heq Hnz]. inversion Heq. congruence.
    + split.
      * split; [ discriminate | ].
        intros [Hc|Hc]; [ discriminate | inversion Hc; contradiction ].
      * intros score. split.
        -- intros Heq. inversion Heq. subst. split; [ reflexivity | exact Hne ].
        -- intros [Heq _]. exact Heq.
  - split.
    + split; [ intros _; left; reflexivity | reflexivity ].
    + intros score. split; [ discriminate | intros [Hc _]; discriminate ].
Qed.

Lemma fetchCreditScore_null_cases_witness :
  CreditScoreSDK.ensureInitialized (sdk_for "aleo1test123") =
    Returned "aleo1test123" /\
  exists answer,
    SDKSession.fetchCreditScore (Some 0) (sdk_for "aleo1test123") =
      Returned answer /\
    (answer = None <-> Some 0 = None \/ Some 0 = Some 0) /\
    (forall score, answer = Some score <-> Some 0 = Some score /\ score <> 0).
Proof.
  split; [ reflexivity | ].
  exact (fetchCreditScore_null_cases (Some 0) (sdk_for "aleo1test123")
           "aleo1test123" eq_refl).
Defined.

(** ** lib/aleo: accounts *)

Lemma string_length_app (s1 s2 : string) :
  String.length (s1 ++ s2) = (String.length s1 + String.length s2)%nat.
Proof. induction s1 as [|ch s1 IH]; cbn; [ reflexivity | now rewrite IH ]. Qed.

Lemma zeros_length k : String.length (zeros k) = k.
Proof. induction k as [|k IH]; cbn; [ reflexivity | now rewrite IH ]. Qed.

Lemma zeros_app a b : (zeros a ++ zeros b)%string = zeros (a + b).
Proof. induction a as [|a IH]; cbn; [ reflexivity | now rewrite IH ]. Qed.

Lemma substring_all (s : string) :
  String.substring 0 (String.length s) s = s.
Proof. induction s as [|ch s IH]; cbn; [ reflexivity | now rewrite IH ]. Qed.

Lemma substring_app_left (s1 s2 : string) :
  String.substring 0 (String.length s1) (s1 ++ s2) = s1.
Proof.
  induction s1 as [|ch s1 IH]; cbn.
  - destruct s2; reflexivity.
  - now rewrite IH.
Qed.

Lemma substring_app_right (s1 s2 : string) :
  String.substring (String.length s1) (String.length s2) (s1 ++ s2) = s2.
Proof.
  induction s1 as [|ch s1 IH]; cbn.
  - apply substring_all.
  - exact IH.
Qed.

Lemma substring_length (n : nat) (s : string) :
  (n <= String.length s)%nat ->
  String.length (String.substring 0 n s) = n.
Proof.
  revert s. induction n as [|n IH]; intros s Hn.
  - destruct s; reflexivity.
  - destruct s as [|ch s]; cbn in *; [ lia | ]. rewrite IH; lia.
Qed.

Lemma toString16_digits_length fuel :
  forall n k, 0 <= n < 16 ^ Z.of_nat (S k) ->
    (String.length (toString16_digits fuel n) <= S k)%nat.
Proof.
  induction fuel as [|fuel IH]; intros n k Hn; cbn [toString16_digits].
  - cbn. lia.
  - destruct (Z.ltb_spec n 16) as [Hlt|Hge].
    + cbn. lia.
    + rewrite string_length_app. cbn [String.length].
      destruct k as [|k].
      * change (16 ^ Z.of_nat 1) with 16 in Hn. lia.
      * assert (Hq : 0 <= n / 16 < 16 ^ Z.of_nat (S k)).
        { rewrite (Nat2Z.inj_succ (S k)), Z.pow_succ_r in Hn by lia.
          split; [ apply Z.div_pos; lia | ].
          apply Z.div_lt_upper_bound; lia. }
        specialize (IH (n / 16) k Hq). lia.
Qed.

(** The hash is 60 characters, of which the first 52 are '0'. *)
Lemma hashString_shape str :
  exists digits,
    (String.length digits <= 8)%nat /\
    Aleo.hashString str =
      (zeros 52 ++ zeros (8 - String.length digits) ++ digits)%string.
Proof.
  unfold Aleo.hashString. cbv zeta.
  pose proof (hash_loop_range (charCodes str) 0 ltac:(lia)) as Hr.
  set (hash := fold_left _ (charCodes str) 0) in *.
  exists (toString16 (Z.abs hash)).
  assert (Hlen : (String.length (toString16 (Z.abs hash)) <= 8)%nat).
  { unfold toString16. apply (toString16_digits_length _ _ 7).
    change (16 ^ Z.of_nat 8) with 4294967296.
    change (2 ^ 31) with 2147483648 in Hr. lia. }
  split; [ exact Hlen | ].
  unfold padStart0.
  replace (60 - String.length (toString16 (Z.abs hash)))%nat
    with (52 + (8 - String.length (toString16 (Z.abs hash))))%nat by lia.
  rewrite <- zeros_app.
  generalize (zeros (8 - String.length (toString16 (Z.abs hash)))).
  intros z. generalize (toString16 (Z.abs hash)). intros d.
  generalize (zeros 52). intros p.
  induction p as [|ch p IH]; cbn; [ reflexivity | now rewrite IH ].
Qed.

Lemma hashString_length str : String.length (Aleo.hashString str) = 60%nat.
Proof.
  destruct (hashString_shape str) as (d & Hd & ->).
  rewrite !string_length_app, !zeros_length. lia.
Qed.

Lemma slice_zeros (n : nat) (m : nat) (s : string) :
  (n <= m)%nat -> slice_to n (zeros m ++ s) = zeros n.
Proof.
  unfold slice_to. revert m. induction n as [|n IH]; intros m Hn.
  - destruct m; cbn; [ destruct s | ]; reflexivity.
  - destruct m as [|m]; [ lia | ]. cbn. rewrite IH by lia. reflexivity.
Qed.

Lemma slice_hashString_30 str : slice_to 30 (Aleo.hashString str) = zeros 30.
Proof.
  destruct (hashString_shape str) as (d & _ & ->).
  apply slice_zeros. lia.
Qed.

Lemma slice_past_zeros (a n : nat) (s : string) :
  slice_to (a + n) (zeros a ++ s) = (zeros a ++ slice_to n s)%string.
Proof.
  unfold slice_to. induction a as [|a IH]; cbn; [ reflexivity | now rewrite IH ].
Qed.

Lemma derived_address_shape key :
  let derived := ("aleo1" ++ slice_to 58 (Aleo.hashString key))%string in
  Aleo.isValidAddress derived = true /\
  slice_to 57 derived = ("aleo1" ++ zeros 52)%string.
Proof.
  cbv zeta. split.
  - unfold Aleo.isValidAddress.
    assert (Hl : String.length (slice_to 58 (Aleo.hashString key)) = 58%nat).
    { apply substring_length. rewrite hashString_length. lia. }
    cbn [append startsWith prefix String.length]. rewrite Hl.
    destruct (slice_to 58 (Aleo.hashString key)); reflexivity.
  - destruct (hashString_shape key) as (d & _ & ->).
    rewrite (slice_past_zeros 52 6).
    change (slice_to 57 ("aleo1" ++ ?s))
      with ("aleo1" ++ slice_to 52 s)%string.
    rewrite slice_zeros by lia. reflexivity.
Qed.

(** X26. An account can be made from exactly the keys that start with
    "APrivateKey1"; any other key makes the constructor throw the Error
    "Invalid Aleo private key format". The address derived for an accepted
    key passes [isValidAddress] (prefix "aleo1", 63 characters), and it
    begins with "aleo1" followed by 52 characters '0': only its last six
    characters depend on the key. *)
Theorem derived_address_is_valid (key : string) :
  (startsWith key "APrivateKey1" = true /\
   exists account,
     Aleo.newAccount key = Returned account /\
     Aleo.privateKey account = key /\
     Aleo.isValidAddress (Aleo.address account) = true /\
     slice_to 57 (Aleo.address account) = ("aleo1" ++ zeros 52)%string) \/
  (startsWith key "APrivateKey1" = false /\
   Aleo.newAccount key = Thrown (Error "Invalid Aleo private key format")).
Proof.
  unfold Aleo.newAccount, Aleo.deriveAddress.
  destruct (startsWith key "APrivateKey1") eqn:Hp; cbn [negb bind].
  - left. split; [ reflexivity | ]. eexists. split; [ reflexivity | ].
    cbn [Aleo.privateKey Aleo.address]. split; [ reflexivity | ].
    apply derived_address_shape.
  - right. split; reflexivity.
Qed.

(** X27. The signature does not depend on what is signed or on who signs:
    for every account and every message, [sign] returns "sign1" followed by
    60 characters '0'. [verify] therefore accepts it for any message and
    any address that starts with "aleo1". *)
Theorem sign_is_constant (account : Aleo.AleoAccount) (message : string) :
  Aleo.sign account message = ("sign1" ++ zeros 60)%string /\
  forall message' addr,
    Aleo.verify message' (Aleo.sign account message) addr =
    startsWith addr "aleo1".
Proof.
  assert (Hs : Aleo.sign account message = ("sign1" ++ zeros 60)%string).
  { unfold Aleo.sign. cbv zeta. rewrite !slice_hashString_30.
    rewrite zeros_app. reflexivity. }
  split; [ exact Hs | ].
  intros message' addr. rewrite Hs. reflexivity.
Qed.

(** X28. [generateAccount] never throws: whatever bytes are drawn, the key
    it makes is "APrivateKey1" followed by 64 hexadecimal digits, 76
    characters that pass [isValidPrivateKey], and the account's address
    passes [isValidAddress]. *)
Theorem generateAccount_is_valid (rnd : entropy) :
  exists account,
    Aleo.generateAccount rnd = Returned account /\
    Aleo.privateKey account =
      ("APrivateKey1" ++ bytesToHex (getRandomValues32 rnd 0))%string /\
    String.length (Aleo.privateKey account) = 76%nat /\
    Aleo.isValidPrivateKey (Aleo.privateKey account) = true /\
    Aleo.isValidAddress (Aleo.address account) = true.
Proof.
  unfold Aleo.generateAccount, Aleo.newAccount, Aleo.deriveAddress. cbv zeta.
  set (hex := bytesToHex (getRandomValues32 rnd 0)).
  assert (Hlen : String.length hex = 64%nat).
  { subst hex. rewrite bytesToHex_length, getRandomValues32_length. reflexivity. }
  assert (Hp : startsWith ("APrivateKey1" ++ hex) "APrivateKey1" = true).
  { cbn. destruct hex; reflexivity. }
  rewrite Hp. cbn [negb bind]. eexists. split; [ reflexivity | ].
  cbn [Aleo.privateKey Aleo.address].
  assert (Hk : String.length ("APrivateKey1" ++ hex) = 76%nat).
  { rewrite string_length_app, Hlen. reflexivity. }
  split; [ reflexivity | ]. split; [ exact Hk | ]. split.
  - unfold Aleo.isValidPrivateKey. rewrite Hp, Hk. reflexivity.
  - apply derived_address_shape.
Qed.

(** ** lib/aleo: the retrying RPC call *)

Lemma first_result_range {T} (reply : nat -> rpc_reply T) n :
  forall k j r,
    first_result reply n k = Some (j, r) ->
    (k <= j < k + n)%nat /\ Aleo.try_request reply j = Returned r.
Proof.
  induction n as [|n IH]; intros k j r Hf; cbn [first_result] in Hf;
    [ discriminate | ].
  destruct (Aleo.try_request reply k) as [r0|e] eqn:Ht.
  - inversion Hf; subst. split; [ lia | exact Ht ].
  - destruct (IH _ _ _ Hf) as [Hr Hj]. split; [ lia | exact Hj ].
Qed.

Lemma call_loop_success {T} (M : nat) (reply : nat -> rpc_reply T) n :
  forall k fuel le L j r,
    (k + n = M)%nat -> (n < fuel)%nat ->
    first_result reply n k = Some (j, r) ->
    exists st,
      Aleo.call_loop (Z.of_nat M) reply fuel (Aleo.mkCall (Z.of_nat k) k le L) =
        Some (Returned r, st) /\
      Aleo.requests st = S j /\
      Aleo.log st =
        (L ++ flat_map (fun i => [RpcRequest i; RpcSleep (2 ^ Z.of_nat i * 1000)])
                (seq k (j - k)) ++ [RpcRequest j])%list.
Proof.
  induction n as [|n IH]; intros k fuel le L j r HM Hfuel Hf;
    cbn [first_result] in Hf; [ discriminate | ].
  destruct fuel as [|fuel]; [ lia | ].
  cbn [Aleo.call_loop Aleo.attempt Aleo.requests Aleo.log Aleo.lastError].
  destruct (Z.ltb_spec (Z.of_nat k) (Z.of_nat M)) as [_|Hge]; [ | lia ].
  destruct (Aleo.try_request reply k) as [r0|e] eqn:Ht.
  - inversion Hf; subst j r0. eexists. split; [ reflexivity | ].
    cbn [Aleo.requests Aleo.log]. rewrite Nat.sub_diag. split; reflexivity.
  - destruct (first_result_range reply n (S k) j r Hf) as [Hj _].
    destruct (Z.ltb_spec (Z.of_nat k) (Z.of_nat M - 1)) as [_|Hge]; [ | lia ].
    replace (Z.of_nat k + 1) with (Z.of_nat (S k)) by lia.
    destruct (IH (S k) fuel (Some e)
                (((L ++ [RpcRequest k]) ++
                  [RpcSleep (2 ^ Z.of_nat k * 1000)])%list) j r
                ltac:(lia) ltac:(lia) Hf) as (st & Hrun & Hreq & Hlog).
    exists st. split; [ exact Hrun | ]. split; [ exact Hreq | ].
    rewrite Hlog. replace (j - k)%nat with (S (j - S k)) by lia.
    cbn [seq flat_map]. rewrite <- !app_assoc. reflexivity.
Qed.

Lemma call_loop_failure {T} (M : nat) (reply : nat -> rpc_reply T) n :
  forall k fuel le L,
    (k + S n = M)%nat -> (S n < fuel)%nat ->
    first_result reply (S n) k = None ->
    exists st,
      Aleo.call_loop (Z.of_nat M) reply fuel (Aleo.mkCall (Z.of_nat k) k le L) =
        Some (Thrown (last_failure reply M), st) /\
      Aleo.requests st = M /\
      Aleo.log st =
        (L ++ flat_map (fun i => [RpcRequest i; RpcSleep (2 ^ Z.of_nat i * 1000)])
                (seq k n) ++ [RpcRequest (k + n)])%list.
Proof.
  induction n as [|n IH]; intros k fuel le L HM Hfuel Hf;
    cbn [first_result] in Hf.
  - destruct fuel as [|[|fuel]]; try lia.
    cbn [Aleo.call_loop Aleo.attempt Aleo.requests Aleo.log Aleo.lastError].
    destruct (Z.ltb_spec (Z.of_nat k) (Z.of_nat M)) as [_|Hge]; [ | lia ].
    destruct (Aleo.try_request reply k) as [r0|e] eqn:Ht; [ discriminate | ].
    destruct (Z.ltb_spec (Z.of_nat k) (Z.of_nat M - 1)) as [Hlt|_]; [ lia | ].
    destruct (Z.ltb_spec (Z.of_nat k + 1) (Z.of_nat M)) as [Hlt|_]; [ lia | ].
    eexists. split.
    + unfold last_failure. replace M with (S k) by lia. rewrite Ht. reflexivity.
    + cbn [Aleo.requests Aleo.log seq flat_map]. rewrite Nat.add_0_r.
      split; [ lia | reflexivity ].
  - destruct fuel as [|fuel]; [ lia | ].
    cbn [Aleo.call_loop Aleo.attempt Aleo.requests Aleo.log Aleo.lastError].
    destruct (Z.ltb_spec (Z.of_nat k) (Z.of_nat M)) as [_|Hge]; [ | lia ].
    destruct (Aleo.try_request reply k) as [r0|e] eqn:Ht; [ discriminate | ].
    destruct (Z.ltb_spec (Z.of_nat k) (Z.of_nat M - 1)) as [_|Hge]; [ | lia ].
    replace (Z.of_nat k + 1) with (Z.of_nat (S k)) by lia.
    destruct (IH (S k) fuel (Some e)
                (((L ++ [RpcRequest k]) ++
                  [RpcSleep (2 ^ Z.of_nat k * 1000)])%list)
                ltac:(lia) ltac:(lia) Hf) as (st & Hrun & Hreq & Hlog).
    exists st. split; [ exact Hrun | ]. split; [ exact Hreq | ].
    rewrite Hlog. cbn [seq flat_map]. rewrite <- !app_assoc.
    replace (S k + n)%nat with (k + S n)%nat by lia. reflexivity.
Qed.

Lemma time_slept_app l1 l2 :
  time_slept (l1 ++ l2) = time_slept l1 + time_slept l2.
Proof.
  induction l1 as [|[k|ms] l1 IH]; cbn [app time_slept]; lia.
Qed.

Lemma time_slept_backoff n :
  time_slept (backoff n) = 1000 * (2 ^ Z.of_nat n - 1).
Proof.
  unfold backoff. induction n as [|n IH]; [ reflexivity | ].
  rewrite seq_S, flat_map_app, time_slept_app, IH.
  cbn [Nat.add flat_map app time_slept].
  rewrite Nat2Z.inj_succ, Z.pow_succ_r by lia. lia.
Qed.

(** What a call with [M] attempts allowed comes to. *)
Lemma call_outcome {T} (M : nat) (reply : nat -> rpc_reply T) :
  exists st,
    Aleo.call (Z.of_nat M) reply =
      Some (match first_result reply M 0 with
            | Some (_, result) => Returned result
            | None => Thrown (last_failure reply M)
            end, st) /\
    Aleo.log st =
      match first_result reply M 0 with
      | Some (j, _) => (backoff j ++ [RpcRequest j])%list
      | None => match M with
                | O => []
                | S m => (backoff m ++ [RpcRequest m])%list
                end
      end /\
    Aleo.requests st =
      match first_result reply M 0 with
      | Some (j, _) => S j
      | None => M
      end.
Proof.
  unfold Aleo.call. rewrite Nat2Z.id.
  destruct (first_result reply M 0) as [[j r]|] eqn:Hf.
  - destruct (call_loop_success M reply M 0%nat (S M) None [] j r
                ltac:(lia) ltac:(lia) Hf) as (st & Hrun & Hreq & Hlog).
    exists st. split; [ exact Hrun | ]. split; [ | exact Hreq ].
    rewrite Hlog, Nat.sub_0_r. reflexivity.
  - destruct M as [|m].
    + eexists. split; [ reflexivity | ]. split; reflexivity.
    + destruct (call_loop_failure (S m) reply m 0%nat (S (S m)) None []
                  ltac:(lia) ltac:(lia) Hf) as (st & Hrun & Hreq & Hlog).
      exists st. split; [ exact Hrun | ]. split; [ | exact Hreq ].
      rewrite Hlog. reflexivity.
Qed.

(** X29. [AleoRPCClient.call] with [M] attempts allowed always ends. It
    returns the result of the first attempt that yields one, after asking
    once per attempt and sleeping 1000, 2000, 4000, ... ms after each
    failed one; if none of the [M] attempts yields a result it throws the
    error of the last attempt, without sleeping after it, and with no
    attempt allowed it throws the Error "RPC call failed" without asking.
    It never makes more than [M] requests, and the time slept before the
    [j]-th request is 1000 * (2^j - 1) ms. [programExists], which wraps
    such a call, never throws: it answers true when an attempt yields a
    result and false when all fail. *)
Theorem call_retries_with_backoff {T : Type}
    (M : nat) (reply : nat -> rpc_reply T) :
  exists st,
    Aleo.call (Z.of_nat M) reply =
      Some (match first_result reply M 0 with
            | Some (_, result) => Returned result
            | None => Thrown (last_failure reply M)
            end, st) /\
    Aleo.log st =
      match first_result reply M 0 with
      | Some (j, _) => (backoff j ++ [RpcRequest j])%list
      | None => match M with
                | O => []
                | S m => (backoff m ++ [RpcRequest m])%list
                end
      end /\
    (Aleo.requests st <= M)%nat /\
    time_slept (Aleo.log st) =
      1000 * (2 ^ Z.of_nat (Aleo.requests st - 1) - 1) /\
    Aleo.programExists (Z.of_nat M) reply =
      Some (match first_result reply M 0 with
            | Some _ => true
            | None => false
            end).
Proof.
  destruct (call_outcome M reply) as (st & Hrun & Hlog & Hreq).
  exists st. split; [ exact Hrun | ]. split; [ exact Hlog | ].
  assert (Hexists : Aleo.programExists (Z.of_nat M) reply =
                    Some (match first_result reply M 0 with
                          | Some _ => true
                          | None => false
                          end)).
  { unfold Aleo.programExists. rewrite Hrun.
    destruct (first_result reply M 0) as [[j r]|]; reflexivity. }
  cut ((Aleo.requests st <= M)%nat /\
       time_slept (Aleo.log st) =
         1000 * (2 ^ Z.of_nat (Aleo.requests st - 1) - 1)).
  { intros [Hle Hslept]. split; [ exact Hle | ].
    split; [ exact Hslept | exact Hexists ]. }
  rewrite Hlog, Hreq.
  destruct (first_result reply M 0) as [[j r]|] eqn:Hf.
  - destruct (first_result_range reply M 0%nat j r Hf) as [Hj _].
    split; [ lia | ].
    rewrite time_slept_app, time_slept_backoff. cbn [time_slept].
    replace (S j - 1)%nat with j by lia. lia.
  - split; [ lia | ]. destruct M as [|m]; [ reflexivity | ].
    rewrite time_slept_app, time_slept_backoff. cbn [time_slept].
    replace (S m - 1)%nat with m by lia. lia.
Qed.

(** ** hooks/useAleoWallet: address formatting *)

Lemma string_app_assoc (s1 s2 s3 : string) :
  ((s1 ++ s2) ++ s3)%string = (s1 ++ s2 ++ s3)%string.
Proof. induction s1 as [|ch s1 IH]; cbn; [ reflexivity | now rewrite IH ]. Qed.

Lemma substring_length_from (n m : nat) :
  forall s, (n + m <= String.length s)%nat ->
    String.length (String.substring n m s) = m.
Proof.
  induction n as [|n IH]; intros s Hs.
  - apply substring_length. lia.
  - destruct s as [|ch s]; cbn in *; [ lia | ]. apply IH. lia.
Qed.

Lemma formatAddress_long address :
  (20 <= String.length address)%nat ->
  let shown := useAleoWallet.formatAddress address in
  shown = (slice_to 10 address ++ "..." ++ slice_last 8 address)%string /\
  String.length shown = 21%nat /\
  slice_to 10 shown = slice_to 10 address /\
  slice_last 8 shown = slice_last 8 address.
Proof.
  intros Hlen. cbv zeta.
  assert (Hs : useAleoWallet.formatAddress address =
               (slice_to 10 address ++ "..." ++ slice_last 8 address)%string).
  { unfold useAleoWallet.formatAddress.
    destruct (Nat.ltb_spec (String.length address) 20) as [Hlt|_]; [ lia | ].
    destruct address; [ cbn in Hlen; lia | reflexivity ]. }
  assert (H10 : String.length (slice_to 10 address) = 10%nat)
    by (apply substring_length; lia).
  assert (H8 : String.length (slice_last 8 address) = 8%nat)
    by (apply substring_length_from; lia).
  assert (H21 : String.length (useAleoWallet.formatAddress address) = 21%nat).
  { rewrite Hs, !string_length_app, H10, H8. reflexivity. }
  split; [ exact Hs | ]. split; [ exact H21 | ]. split.
  - rewrite Hs. unfold slice_to at 1. rewrite <- H10 at 1.
    apply substring_app_left.
  - unfold slice_last at 1. rewrite H21. rewrite Hs.
    rewrite <- (string_app_assoc (slice_to 10 address) "...").
    assert (H13 : String.length (slice_to 10 address ++ "...") = (21 - 8)%nat)
      by (rewrite string_length_app, H10; reflexivity).
    rewrite <- H13. rewrite <- H8 at 2. apply substring_app_right.
Qed.

(** X30. [formatAddress] leaves an address of fewer than 20 characters as
    it is and shortens any longer one to exactly 21 characters: its first
    ten, three dots, its last eight. Formatting a formatted address changes
    nothing. *)
Theorem formatAddress_shortens_once (address : string) :
  useAleoWallet.formatAddress address =
    (if (String.length address <? 20)%nat then address
     else (slice_to 10 address ++ "..." ++ slice_last 8 address)%string) /\
  String.length (useAleoWallet.formatAddress address) =
    (if (String.length address <? 20)%nat then String.length address
     else 21%nat) /\
  useAleoWallet.formatAddress (useAleoWallet.formatAddress address) =
    useAleoWallet.formatAddress address.
Proof.
  destruct (Nat.ltb_spec (String.length address) 20) as [Hlt|Hge].
  - assert (Hs : useAleoWallet.formatAddress address = address).
    { unfold useAleoWallet.formatAddress.
      destruct (Nat.ltb_spec (String.length address) 20) as [_|Hge]; [ | lia ].
      rewrite orb_true_r. reflexivity. }
    rewrite !Hs. repeat split.
  - destruct (formatAddress_long address Hge) as (Hs & H21 & H10 & H8).
    split; [ exact Hs | ]. split; [ exact H21 | ].
    destruct (formatAddress_long (useAleoWallet.formatAddress address)
                ltac:(lia)) as (Hs2 & _).
    rewrite Hs2, H10, H8. symmetry. exact Hs.
Qed.
